(** * Hydrogen orbital viewer: density model, rejection sampler, scheduler

    A shallow embedding of the two programs of the repository:
    - [Code/Multiple Orbitals.cpp] (module [MultipleOrbitals]): four
      selectable orbitals, key-press switching;
    - the single-orbital program (module [SingleOrbital]): one fixed 1s
      orbital.

    Numeric model.  The C++ type [float] is embedded as the real numbers [R]
    of the Standard Library and [std::sqrt], [std::exp], [std::sin],
    [std::cos], [std::pow] as [sqrt], [exp], [sin], [cos], [Rpower]:
    rounding is abstracted away, every statement below is about the exact
    arithmetic the code approximates.  The C++ type [int] is embedded as
    [Z]; the programs never do arithmetic on quantum numbers, and the only
    integer subtraction (key code minus [Num1]) is on small enumerators.

    The throttle test [time - last_generation_time > 0.5f] sits on a
    rounding boundary, so it is also embedded in single precision (modules
    [Binary32] and [F32]): timestamps are IEEE 754 binary32 numbers, the
    subtraction and the comparison are the Standard Library's reference
    operations [SFsub] and [SFltb] at precision 24.

    Randomness.  [generate_orbital_points] seeds a fresh [std::mt19937] on
    every call and draws four numbers per loop iteration ([r], [theta],
    [phi], then the acceptance threshold).  The generator is embedded as the
    sequence of draws it delivers, [gen : nat -> Draw]; the [while] loop
    takes a number of iterations it may run ([fuel]) and returns [None] when
    it is still running after that many iterations. *)

From Stdlib Require Import Reals Lra Lia ZArith List String Bool.
From Stdlib Require SpecFloat.
Import ListNotations.

Local Open Scope R_scope.

(** ** Constants and parameters (identical in both programs) *)

Definition PI : R := 3.14159265359.
Definition BOHR_RADIUS : R := 1.0.
Definition NUM_POINTS : Z := 10000.
Definition ROTATION_SPEED : R := 0.01.
Definition VIBRATION_FREQ : R := 0.1.

(** ** Single-precision numbers

    The C++ type [float] as IEEE 754 binary32: 24 bits of precision,
    exponent bound 128, round to nearest even, each operation rounded to
    [float] (as compilers do on x86-64). *)

Module Binary32.

Definition prec : Z := 24.
Definition emax : Z := 128.

Definition float : Type := SpecFloat.spec_float.

(** The literals [0.5f] and [-100.0f], both exact. *)
Definition half : float := SpecFloat.S754_finite false 8388608 (-24).
Definition minus_hundred : float := SpecFloat.S754_finite true 13107200 (-17).

(** [a - b] and [a > b] on [float]; a comparison with NaN is false. *)
Definition sub (a b : float) : float := SpecFloat.SFsub prec emax a b.
Definition gt (a b : float) : bool := SpecFloat.SFltb b a.

(** The real number a finite float stands for (0 for infinities and NaN). *)
Definition to_R (f : float) : R :=
  match f with
  | SpecFloat.S754_finite s m e =>
      IZR (SpecFloat.cond_Zopp s (Zpos m)) * powerRZ 2 e
  | _ => 0
  end.

(** The floats nearest to 0.1 and 0.6: the clock readings [0.1f] and
    [0.6f]. *)
Definition tenth : float := SpecFloat.S754_finite false 13421773 (-27).
Definition six_tenths : float := SpecFloat.S754_finite false 10066330 (-24).

End Binary32.

(** [sf::Vector3f] *)
Record Vector3f : Type := mkVector3f { x : R; y : R; z : R }.

(** [struct Orbital] *)
Record Orbital : Type := mkOrbital {
  n : Z;
  l : Z;
  m : Z;
  scale : R;
  name : string;
  color : Vector3f
}.

(** ** Radial part (identical in both programs) *)

Definition radial_function (n : Z) (r : R) : R :=
  let a0 := BOHR_RADIUS in
  if (n =? 1)%Z then
    2.0 * exp (- r / a0) / Rpower a0 1.5
  else if (n =? 2)%Z then
    (1.0 / (2.0 * sqrt 2.0)) * (1.0 - r / (2.0 * a0))
      * exp (- r / (2.0 * a0)) / Rpower a0 1.5
  else 0.0.

(** ** The random source and the acceptance loop *)

(** One loop iteration draws, in this order, [r_dist(gen)], [theta_dist(gen)],
    [phi_dist(gen)] and [prob_dist(gen)]. *)
Record Draw : Type := mkDraw { d_r : R; d_theta : R; d_phi : R; d_u : R }.

(** The spherical-to-Cartesian conversion done on acceptance. *)
Definition to_cartesian (r theta phi : R) : Vector3f :=
  mkVector3f (r * sin theta * cos phi) (r * sin theta * sin phi) (r * cos theta).

(** The point stored for an accepted draw. *)
Definition point_of_draw (d : Draw) : Vector3f :=
  to_cartesian (d_r d) (d_theta d) (d_phi d).

(** What the drawing loop hands to the graphics library, in order. *)
Inductive GLCommand : Type :=
| glColor4f (red green blue alpha : R)
| glVertex3f (vx vy vz : R).

Definition vertices (cmds : list GLCommand) : list Vector3f :=
  flat_map (fun c => match c with
                     | glVertex3f vx vy vz => [mkVector3f vx vy vz]
                     | glColor4f _ _ _ _ => []
                     end) cmds.

Section AcceptanceLoop.

  (** [prob_at r theta phi] is [probability_density] at the orbital and time
      the sampler was called with. *)
Variable prob_at : R -> R -> R -> R.
Variable max_prob : R.

Definition accepts (d : Draw) : Prop :=
    d_u d < prob_at (d_r d) (d_theta d) (d_phi d) / max_prob.

Definition accepts_dec (d : Draw) : {accepts d} + {~ accepts d} :=
    Rlt_dec (d_u d) (prob_at (d_r d) (d_theta d) (d_phi d) / max_prob).

  (** [while (points.size() < NUM_POINTS) { ... }], started at draw [i]. *)
Fixpoint acceptance_loop (gen : nat -> Draw) (fuel i : nat)
      (points : list Vector3f) : option (list Vector3f) :=
    if (Z.of_nat (List.length points) <? NUM_POINTS)%Z then
      match fuel with
      | O => None
      | S fuel' =>
          let d := gen i in
          if accepts_dec d then
            acceptance_loop gen fuel' (S i)
              (points ++ [to_cartesian (d_r d) (d_theta d) (d_phi d)])
          else
            acceptance_loop gen fuel' (S i) points
      end
    else Some points.

  (** Number of accepted draws among [gen i .. gen (i + k - 1)]. *)
Fixpoint accepted_count (gen : nat -> Draw) (i k : nat) : nat :=
    match k with
    | O => O
    | S k' => (if accepts_dec (gen i) then 1 else 0) + accepted_count gen (S i) k'
    end.

(** Accepted draws of a finite sequence of draws. *)
Fixpoint hits (ds : list Draw) : nat :=
  match ds with
  | [] => O
  | d :: ds' => ((if accepts_dec d then 1 else 0) + hits ds')%nat
  end.

Definition accepted_b (d : Draw) : bool :=
  if accepts_dec d then true else false.

End AcceptanceLoop.

(** A draw that the source delivers again and again. *)
Definition recurrent (gen : nat -> Draw) (d : Draw) : Prop :=
  forall N : nat, exists i : nat, (N <= i)%nat /\ gen i = d.

(** *** Finitely many equally likely draws

    The four distributions deliver numbers of type [float], of which there
    are finitely many.  For a list [D] of the draws one iteration can make,
    each as likely as the others, [draw_seqs D k] lists the
    [length D ^ k] sequences of [k] draws, each as likely as the others, and
    [running_count run D k] counts those on which the call [run] is still
    in its loop after [k] iterations: divided by [length D ^ k] it is the
    probability that the call has not returned after [k] iterations. *)

Definition source_of (ds : list Draw) : nat -> Draw :=
  fun i => nth i ds (mkDraw 0 0 0 0).

Fixpoint draw_seqs (D : list Draw) (k : nat) : list (list Draw) :=
  match k with
  | O => [[]]
  | S k' => flat_map (fun d => map (cons d) (draw_seqs D k')) D
  end.

Definition still_running
    (run : (nat -> Draw) -> nat -> option (list Vector3f))
    (ds : list Draw) : bool :=
  match run (source_of ds) (List.length ds) with
  | Some _ => false
  | None => true
  end.

Definition running_count
    (run : (nat -> Draw) -> nat -> option (list Vector3f))
    (D : list Draw) (k : nat) : nat :=
  List.length (filter (still_running run) (draw_seqs D k)).

(** Sequences of length [k] with fewer than [need] accepted draws. *)
Definition short_count (prob_at : R -> R -> R -> R) (max_prob : R)
    (D : list Draw) (k need : nat) : nat :=
  List.length
    (filter (fun ds => (hits prob_at max_prob ds <? need)%nat) (draw_seqs D k)).

(** ** Code/Multiple Orbitals.cpp *)

Module MultipleOrbitals.

(** Real spherical harmonics for s and p orbitals *)
Definition real_spherical_harmonic (orbital : Orbital) (theta phi : R) : R :=
  let l := l orbital in
  let m := m orbital in
  if (l =? 0)%Z && (m =? 0)%Z then
    0.5 * sqrt (1.0 / PI)
  else if (l =? 1)%Z && (m =? 0)%Z then
    sqrt (3.0 / (4.0 * PI)) * cos theta
  else if (l =? 1)%Z && (m =? 1)%Z then
    - sqrt (3.0 / (4.0 * PI)) * sin theta * cos phi
  else if (l =? 1)%Z && (m =? -1)%Z then
    - sqrt (3.0 / (4.0 * PI)) * sin theta * sin phi
  else 0.0.

Definition probability_density (orbital : Orbital) (r theta phi time : R) : R :=
  let R := radial_function (n orbital) r in
  let Y := real_spherical_harmonic orbital theta phi in
  let psi := R * Y in
  let vibration := 1.0 + 0.1 * sin (VIBRATION_FREQ * time) in
  psi * psi * vibration.

(** Upper bound of [r_dist]. *)
Definition r_max : R := 8.0 * BOHR_RADIUS.

(** What [std::uniform_real_distribution<float>(a, b)] delivers: a value of
    [[a, b)], for the four distributions of the sampler. *)
Definition in_range (d : Draw) : Prop :=
  (0.0 <= d_r d < r_max) /\ (0.0 <= d_theta d < PI) /\
  (0.0 <= d_phi d < 2.0 * PI) /\ (0.0 <= d_u d < 1.0).

Definition max_prob : R := 1.0.

Definition generate_orbital_points (orbital : Orbital) (time : R)
    (gen : nat -> Draw) (fuel : nat) : option (list Vector3f) :=
  acceptance_loop
    (fun r theta phi => probability_density orbital r theta phi time)
    max_prob gen fuel 0 [].

(** The catalogue built in [main]. *)
Definition orbitals : list Orbital :=
  [ mkOrbital 1 0 0 2.0 "1s" (mkVector3f 1.0 0.0 0.0);
    mkOrbital 2 1 1 2.0 "2px" (mkVector3f 0.0 1.0 0.0);
    mkOrbital 2 1 (-1) 2.0 "2py" (mkVector3f 0.0 0.5 1.0);
    mkOrbital 2 1 0 2.0 "2pz" (mkVector3f 1.0 1.0 0.0) ].

(** *** [main]: the state the frame loop owns, and one pass of the loop.
    Window set-up and the camera are not modelled. *)

Inductive Event : Type :=
| Closed
| KeyPressed (code : Z)
| OtherEvent.

Record State : Type := mkState {
  window_open : bool;
  current_orbital : Z;
  points : list Vector3f;
  angle : R;
  last_generation_time : R
}.

Definition initial_state : State := mkState true 0 [] 0.0 (-100.0).

(** Conversion of an [int] to [std::size_t] (64 bits), as done by the
    comparison [index < orbitals.size()]. *)
Definition to_size_t (i : Z) : Z := (i mod 2 ^ 64)%Z.

(** [orbitals[i]]; indexing outside the vector has no defined result. *)
Definition orbital_at (i : Z) : option Orbital :=
  if (i <? 0)%Z then None else nth_error orbitals (Z.to_nat i).

(** [for (const auto& p : points) { ... }] between [glBegin] and [glEnd]:
    the catalogue is indexed once per point. *)
Fixpoint render_points (current_orbital : Z) (points : list Vector3f)
    : option (list GLCommand) :=
  match points with
  | [] => Some []
  | p :: rest =>
      match orbital_at current_orbital with
      | Some orbital =>
          let c := color orbital in
          match render_points current_orbital rest with
          | Some cmds =>
              Some (glColor4f (x c) (y c) (z c) 0.5
                    :: glVertex3f (x p * scale orbital) (y p * scale orbital)
                         (z p * scale orbital)
                    :: cmds)
          | None => None
          end
      | None => None
      end
  end.

Definition render (s : State) : option (list GLCommand) :=
  render_points (current_orbital s) (points s).

(** What one pass of the frame loop receives from outside: the pending
    events, the clock reading, and the random source and iteration budget
    of a sampler call made in this pass. *)
Record Pass : Type := mkPass {
  pass_events : list Event;
  pass_time : R;
  pass_gen : nat -> Draw;
  pass_fuel : nat
}.

Section Main.

(** The enumerators [sf::Keyboard::Num1] and [sf::Keyboard::Num4] of the
    windowing library, whose header is not part of the repository. *)
Variables Num1 Num4 : Z.

(** Body of [while (window.pollEvent(event))]; the message written to
    [std::cout] on a switch is not modelled. *)
Definition handle_event (event : Event) (s : State) : State :=
  match event with
  | Closed =>
      mkState false (current_orbital s) (points s) (angle s)
        (last_generation_time s)
  | KeyPressed code =>
      if (code >=? Num1)%Z && (code <=? Num4)%Z then
        let index := (code - Num1)%Z in
        if (to_size_t index <? Z.of_nat (List.length orbitals))%Z then
          mkState (window_open s) index (points s) (angle s) (-100.0)
        else s
      else s
  | OtherEvent => s
  end.

Definition poll_events (events : list Event) (s : State) : State :=
  fold_left (fun s e => handle_event e s) events s.

(** [if (time - last_generation_time > 0.5f) { ... }] *)
Definition regenerate (time : R) (gen : nat -> Draw) (fuel : nat)
    (s : State) : option State :=
  if Rgt_dec (time - last_generation_time s) 0.5 then
    match orbital_at (current_orbital s) with
    | Some orbital =>
        match generate_orbital_points orbital time gen fuel with
        | Some pts =>
            Some (mkState (window_open s) (current_orbital s) pts (angle s) time)
        | None => None
        end
    | None => None
    end
  else Some s.

(** One pass of [while (window.isOpen())], for the events pending at its
    start, the clock reading [time] and the random source of this pass. *)
Definition frame (events : list Event) (time : R) (gen : nat -> Draw)
    (fuel : nat) (s : State) : option State :=
  let s1 := poll_events events s in
  let s2 := mkState (window_open s1) (current_orbital s1) (points s1)
              (angle s1 + ROTATION_SPEED) (last_generation_time s1) in
  regenerate time gen fuel s2.

(** [while (window.isOpen()) { ... }] over the passes observed. *)
Fixpoint main_loop (passes : list Pass) (s : State) : option State :=
  match passes with
  | [] => Some s
  | p :: rest =>
      if window_open s then
        match frame (pass_events p) (pass_time p) (pass_gen p) (pass_fuel p) s with
        | Some s' => main_loop rest s'
        | None => None
        end
      else Some s
  end.

End Main.

(** *** The regeneration check in single precision *)

Module F32.

Record State : Type := mkState {
  window_open : bool;
  current_orbital : Z;
  points : list Vector3f;
  angle : Binary32.float;
  last_generation_time : Binary32.float
}.

(** [if (time - last_generation_time > 0.5f) { ... }] *)
Definition regenerate (time : Binary32.float) (gen : nat -> Draw) (fuel : nat)
    (s : State) : option State :=
  if Binary32.gt (Binary32.sub time (last_generation_time s)) Binary32.half then
    match orbital_at (current_orbital s) with
    | Some orbital =>
        match generate_orbital_points orbital (Binary32.to_R time) gen fuel with
        | Some pts =>
            Some (mkState (window_open s) (current_orbital s) pts (angle s) time)
        | None => None
        end
    | None => None
    end
  else Some s.

End F32.

End MultipleOrbitals.

(** ** The single-orbital program *)

Module SingleOrbital.

(** Simplified real-valued spherical harmonics *)
Definition spherical_harmonic (l m : Z) (theta phi : R) : R :=
  if (l =? 0)%Z && (m =? 0)%Z then
    0.5 * sqrt (1.0 / PI)
  else if (l =? 1)%Z && (m =? 0)%Z then
    sqrt (3.0 / (4.0 * PI)) * cos theta
  else if (l =? 1)%Z && (m =? 1)%Z then
    - sqrt (3.0 / (8.0 * PI)) * sin theta * cos phi
  else if (l =? 1)%Z && (m =? -1)%Z then
    sqrt (3.0 / (8.0 * PI)) * sin theta * sin phi
  else 0.0.

Definition probability_density (n l m : Z) (r theta phi time : R) : R :=
  let R := radial_function n r in
  let Y := spherical_harmonic l m theta phi in
  let psi := R * Y in
  let vibration := 1.0 + 0.1 * sin (VIBRATION_FREQ * time) in
  psi * psi * vibration.

Definition r_max : R := 5.0 * BOHR_RADIUS.

Definition in_range (d : Draw) : Prop :=
  (0.0 <= d_r d < r_max) /\ (0.0 <= d_theta d < PI) /\
  (0.0 <= d_phi d < 2.0 * PI) /\ (0.0 <= d_u d < 1.0).

Definition max_prob : R := 1.0.

Definition generate_orbital_points (orbital : Orbital) (time : R)
    (gen : nat -> Draw) (fuel : nat) : option (list Vector3f) :=
  acceptance_loop
    (fun r theta phi =>
       probability_density (n orbital) (l orbital) (m orbital) r theta phi time)
    max_prob gen fuel 0 [].

(** The one orbital defined in [main] (1s by default). *)
Definition orbital : Orbital :=
  mkOrbital 1 0 0 2.0 "1s" (mkVector3f 1.0 0.0 0.0).

(** *** [main] *)

Inductive Event : Type :=
| Closed
| OtherEvent.

Record State : Type := mkState {
  window_open : bool;
  points : list Vector3f;
  angle : R;
  last_generation_time : R
}.

Definition initial_state : State := mkState true [] 0.0 (-100.0).

Definition handle_event (event : Event) (s : State) : State :=
  match event with
  | Closed => mkState false (points s) (angle s) (last_generation_time s)
  | OtherEvent => s
  end.

Definition poll_events (events : list Event) (s : State) : State :=
  fold_left (fun s e => handle_event e s) events s.

(** [if (time - last_generation_time > 0.5f) { ... }] *)
Definition regenerate (time : R) (gen : nat -> Draw) (fuel : nat)
    (s : State) : option State :=
  if Rgt_dec (time - last_generation_time s) 0.5 then
    match generate_orbital_points orbital time gen fuel with
    | Some pts => Some (mkState (window_open s) pts (angle s) time)
    | None => None
    end
  else Some s.

Definition frame (events : list Event) (time : R) (gen : nat -> Draw)
    (fuel : nat) (s : State) : option State :=
  let s1 := poll_events events s in
  let s2 := mkState (window_open s1) (points s1)
              (angle s1 + ROTATION_SPEED) (last_generation_time s1) in
  regenerate time gen fuel s2.

Definition render (s : State) : list GLCommand :=
  flat_map
    (fun p =>
       [ glColor4f (x (color orbital)) (y (color orbital)) (z (color orbital)) 0.5;
         glVertex3f (x p * scale orbital) (y p * scale orbital)
           (z p * scale orbital) ])
    (points s).

Record Pass : Type := mkPass {
  pass_events : list Event;
  pass_time : R;
  pass_gen : nat -> Draw;
  pass_fuel : nat
}.

Fixpoint main_loop (passes : list Pass) (s : State) : option State :=
  match passes with
  | [] => Some s
  | p :: rest =>
      if window_open s then
        match frame (pass_events p) (pass_time p) (pass_gen p) (pass_fuel p) s with
        | Some s' => main_loop rest s'
        | None => None
        end
      else Some s
  end.

(** *** The regeneration check in single precision *)

Module F32.

Record State : Type := mkState {
  window_open : bool;
  points : list Vector3f;
  angle : Binary32.float;
  last_generation_time : Binary32.float
}.

(** [if (time - last_generation_time > 0.5f) { ... }] *)
Definition regenerate (time : Binary32.float) (gen : nat -> Draw) (fuel : nat)
    (s : State) : option State :=
  if Binary32.gt (Binary32.sub time (last_generation_time s)) Binary32.half then
    match generate_orbital_points orbital (Binary32.to_R time) gen fuel with
    | Some pts => Some (mkState (window_open s) pts (angle s) time)
    | None => None
    end
  else Some s.

End F32.

End SingleOrbital.

(** ** The density as the specification words it

    [psi = radial_amplitude * angular_amplitude], and the result is
    [psi^2 * (1 + A * sin (omega * t))] with [A = 0.1]. *)

Definition vibration_amplitude : R := 0.1.

Definition density_spec (radial_amplitude angular_amplitude omega t : R) : R :=
  let psi := radial_amplitude * angular_amplitude in
  psi ^ 2 * (1 + vibration_amplitude * sin (omega * t)).

(** The (l, m) pairs the angular part has a closed form for. *)
Definition angular_table : list (Z * Z) :=
  [ (0, 0); (1, 0); (1, 1); (1, -1) ]%Z.

(** An orbital with given angular quantum numbers, to call
    [real_spherical_harmonic] on a pair [(l, m)]. *)
Definition with_lm (l0 m0 : Z) : Orbital :=
  mkOrbital 2 l0 m0 2.0 "" (mkVector3f 0.0 0.0 0.0).

(** ** Outcomes of the point generator *)

Definition returns_full_set (run : nat -> option (list Vector3f)) : Prop :=
  exists (fuel : nat) (pts : list Vector3f),
    run fuel = Some pts /\ Z.of_nat (List.length pts) = NUM_POINTS.

Definition never_returns (run : nat -> option (list Vector3f)) : Prop :=
  forall fuel : nat, run fuel = None.

(** An orbital outside the implemented table. *)
Definition unsupported (o : Orbital) : Prop :=
  (n o <> 1%Z /\ n o <> 2%Z) \/ ~ In (l o, m o) angular_table.

(** The behaviour of a point generator [run] that samples the density
    [density] from draws in [in_range]:
    - whenever a call returns, it returns exactly [NUM_POINTS] points;
    - if the density is not zero at a point that the random source keeps
      drawing (with acceptance threshold 0), the call returns, with exactly
      [NUM_POINTS] points;
    - if each iteration draws from finitely many equally likely draws [D],
      one of them a point where the density is not zero (with acceptance
      threshold 0), the probability that the call is still running after
      [k] iterations tends to 0 as [k] grows: the call returns with
      probability 1;
    - if the density is zero on the whole domain, the call returns on no
      source, however long it runs. *)
Definition sampler_contract (density : R -> R -> R -> R)
    (in_range : Draw -> Prop)
    (run : (nat -> Draw) -> nat -> option (list Vector3f)) : Prop :=
  (forall gen fuel pts,
      run gen fuel = Some pts -> Z.of_nat (List.length pts) = NUM_POINTS)
  /\ (forall gen r theta phi,
      density r theta phi <> 0 ->
      recurrent gen (mkDraw r theta phi 0) ->
      returns_full_set (run gen))
  /\ (forall D : list Draw,
      (exists r theta phi,
         In (mkDraw r theta phi 0) D /\ density r theta phi <> 0) ->
      forall eps : R, 0 < eps ->
        exists k0 : nat, forall k : nat, (k0 <= k)%nat ->
          INR (running_count run D k) <= eps * INR (List.length D) ^ k)
  /\ ((forall d, in_range d -> density (d_r d) (d_theta d) (d_phi d) = 0) ->
      forall gen, (forall i, in_range (gen i)) -> never_returns (run gen)).

(** A key press that selects an orbital of the catalogue. *)
Definition selects (Num1 : Z) (e : MultipleOrbitals.Event) : Prop :=
  match e with
  | MultipleOrbitals.KeyPressed code =>
      (0 <= code - Num1 < Z.of_nat (List.length MultipleOrbitals.orbitals))%Z
  | _ => False
  end.

(** ** States of the frame loop *)

(** The current orbital is an index into the catalogue. *)
Definition in_catalogue (s : MultipleOrbitals.State) : Prop :=
  (0 <= MultipleOrbitals.current_orbital s
     < Z.of_nat (List.length MultipleOrbitals.orbitals))%Z.

(** A point vector as the generator returns it. *)
Definition full_set (pts : list Vector3f) : Prop :=
  Z.of_nat (List.length pts) = NUM_POINTS.

(** * Properties *)

(** ** Elementary facts about the constants *)

(** Decimal literals are rationals [Q2R (a # b)]; [unlit] writes them as
    quotients of integers, the form [ring] and [field] know. *)
Ltac unlit := cbv [Q2R QArith_base.Qnum QArith_base.Qden] in *.

Lemma PI_bounds : 3 < PI < 4.
Proof. unfold PI; lra. Qed.

Lemma Rpower_BOHR_RADIUS : Rpower BOHR_RADIUS 1.5 = 1.
Proof.
  unfold Rpower, BOHR_RADIUS.
  replace 1.0 with 1 by lra.
  rewrite ln_1, Rmult_0_r. apply exp_0.
Qed.

Lemma radial_function_1 (r : R) : radial_function 1 r = 2 * exp (- r).
Proof.
  unfold radial_function; simpl. rewrite Rpower_BOHR_RADIUS.
  unfold BOHR_RADIUS. replace (- r / 1.0) with (- r) by lra. lra.
Qed.

Lemma radial_function_2 (r : R) :
  radial_function 2 r = (1 / (2 * sqrt 2)) * (1 - r / 2) * exp (- r / 2).
Proof.
  unfold radial_function; simpl. rewrite Rpower_BOHR_RADIUS.
  unfold BOHR_RADIUS.
  replace (2.0 * 1.0) with 2 by lra. replace 2.0 with 2 by lra.
  replace 1.0 with 1 by lra. lra.
Qed.

Lemma radial_function_other (n : Z) (r : R) :
  n <> 1%Z -> n <> 2%Z -> radial_function n r = 0.
Proof.
  intros H1 H2. unfold radial_function.
  destruct (Z.eqb_spec n 1) as [E|_]; [contradiction|].
  destruct (Z.eqb_spec n 2) as [E|_]; [contradiction|].
  lra.
Qed.

Lemma vibration_bounds (w t : R) : 0.9 <= 1.0 + 0.1 * sin (w * t) <= 1.1.
Proof. pose proof (SIN_bound (w * t)) as [Hl Hu]. lra. Qed.

Lemma sin_1_pos : 0 < sin 1.
Proof.
  apply sin_gt_0; [lra|].
  pose proof PI2_1. lra.
Qed.

Lemma sqrt_inv_PI_pos (c : R) : 0 < c -> 0 < sqrt (c / PI).
Proof.
  intros Hc. apply sqrt_lt_R0.
  pose proof PI_bounds. apply Rdiv_lt_0_compat; lra.
Qed.

(** ** Reading the piecewise definitions case by case *)

Lemma spherical_harmonic_outside (l0 m0 : Z) (theta phi : R) :
  ~ In (l0, m0) angular_table ->
  SingleOrbital.spherical_harmonic l0 m0 theta phi = 0.
Proof.
  intros Hout. unfold SingleOrbital.spherical_harmonic.
  destruct (Z.eqb_spec l0 0), (Z.eqb_spec l0 1),
    (Z.eqb_spec m0 0), (Z.eqb_spec m0 1), (Z.eqb_spec m0 (-1));
    subst; simpl; try lra; try lia;
    exfalso; apply Hout; simpl; auto.
Qed.

Lemma real_spherical_harmonic_outside (o : Orbital) (theta phi : R) :
  ~ In (l o, m o) angular_table ->
  MultipleOrbitals.real_spherical_harmonic o theta phi = 0.
Proof.
  intros Hout. unfold MultipleOrbitals.real_spherical_harmonic.
  destruct (Z.eqb_spec (l o) 0) as [E0|], (Z.eqb_spec (l o) 1) as [E1|],
    (Z.eqb_spec (m o) 0) as [F0|], (Z.eqb_spec (m o) 1) as [F1|],
    (Z.eqb_spec (m o) (-1)) as [F2|];
    simpl; try lra; try lia;
    exfalso; apply Hout; simpl;
    repeat match goal with H : _ = _ |- _ => rewrite H; clear H end; auto.
Qed.


Lemma radial_function_nontrivial (n0 : Z) :
  n0 = 1%Z \/ n0 = 2%Z -> radial_function n0 0 <> 0.
Proof.
  intros [-> | ->].
  - rewrite radial_function_1. replace (- 0) with 0 by lra.
    rewrite exp_0. lra.
  - rewrite radial_function_2. replace (- 0 / 2) with 0 by lra.
    rewrite exp_0.
    assert (0 < sqrt 2) by (apply sqrt_lt_R0; lra).
    assert (0 < 1 / (2 * sqrt 2)) by (apply Rdiv_lt_0_compat; lra).
    lra.
Qed.

Lemma harmonics_nontrivial (l0 m0 : Z) :
  In (l0, m0) angular_table ->
  exists theta phi : R,
    MultipleOrbitals.real_spherical_harmonic (with_lm l0 m0) theta phi <> 0 /\
    SingleOrbital.spherical_harmonic l0 m0 theta phi <> 0.
Proof.
  pose proof sin_1_pos as Hs.
  pose proof (sqrt_inv_PI_pos 1.0 ltac:(lra)) as H1.
  pose proof (sqrt_inv_PI_pos (3.0 / 4.0) ltac:(lra)) as H4.
  pose proof (sqrt_inv_PI_pos (3.0 / 8.0) ltac:(lra)) as H8.
  replace (3.0 / 4.0 / PI) with (3.0 / (4.0 * PI)) in H4
    by (pose proof PI_bounds; field; lra).
  replace (3.0 / 8.0 / PI) with (3.0 / (8.0 * PI)) in H8
    by (pose proof PI_bounds; field; lra).
  simpl. intros [E | [E | [E | [E | []]]]]; inversion E; subst; clear E.
  - exists 0, 0.
    unfold MultipleOrbitals.real_spherical_harmonic,
      SingleOrbital.spherical_harmonic; simpl. lra.
  - exists 0, 0.
    unfold MultipleOrbitals.real_spherical_harmonic,
      SingleOrbital.spherical_harmonic; simpl. rewrite cos_0. lra.
  - exists 1, 0.
    unfold MultipleOrbitals.real_spherical_harmonic,
      SingleOrbital.spherical_harmonic; simpl. rewrite cos_0. nra.
  - exists 1, 1.
    unfold MultipleOrbitals.real_spherical_harmonic,
      SingleOrbital.spherical_harmonic; simpl.
    assert (0 < sin 1 * sin 1) by (apply Rmult_lt_0_compat; assumption).
    split; apply Rlt_dichotomy_converse; [left | right]; nra.
Qed.

(** ** The density function *)

Lemma density_nonneg_multi (o : Orbital) (r theta phi t : R) :
  0 <= MultipleOrbitals.probability_density o r theta phi t.
Proof.
  pose proof (vibration_bounds VIBRATION_FREQ t) as Hv.
  unfold MultipleOrbitals.probability_density. cbv zeta.
  apply Rmult_le_pos; [apply Rle_0_sqr | lra].
Qed.

Lemma density_nonneg_single (n0 l0 m0 : Z) (r theta phi t : R) :
  0 <= SingleOrbital.probability_density n0 l0 m0 r theta phi t.
Proof.
  pose proof (vibration_bounds VIBRATION_FREQ t) as Hv.
  unfold SingleOrbital.probability_density. cbv zeta.
  apply Rmult_le_pos; [apply Rle_0_sqr | lra].
Qed.

(** C2.  For every orbital, spherical coordinate and time, both programs'
    [probability_density] return [psi^2 * (1 + 0.1 * sin (omega * t))], where
    [psi] is the radial amplitude at [(n, r)] times the angular amplitude at
    [(l, m, theta, phi)] and [omega] is the constant [VIBRATION_FREQ]: the
    code computes the density the specification describes. *)
Theorem probability_density_formula :
  forall (o : Orbital) (r theta phi t : R),
    MultipleOrbitals.probability_density o r theta phi t
      = density_spec (radial_function (n o) r)
          (MultipleOrbitals.real_spherical_harmonic o theta phi)
          VIBRATION_FREQ t
    /\ SingleOrbital.probability_density (n o) (l o) (m o) r theta phi t
      = density_spec (radial_function (n o) r)
          (SingleOrbital.spherical_harmonic (l o) (m o) theta phi)
          VIBRATION_FREQ t
    /\ density_spec (radial_function (n o) r)
          (MultipleOrbitals.real_spherical_harmonic o theta phi)
          VIBRATION_FREQ t
      = (radial_function (n o) r
           * MultipleOrbitals.real_spherical_harmonic o theta phi) ^ 2
        * (1 + 0.1 * sin (VIBRATION_FREQ * t)).
Proof.
  intros o r theta phi t.
  unfold MultipleOrbitals.probability_density,
    SingleOrbital.probability_density, density_spec, vibration_amplitude.
  cbv zeta. repeat split; replace 1.0 with 1 by lra; ring.
Qed.

(** C6.  For every orbital (supported or not), every coordinate and every
    time, both programs' density is non-negative, and the vibration factor
    [1 + 0.1 * sin (omega * t)] is strictly positive. *)
Theorem probability_density_nonneg :
  forall (o : Orbital) (r theta phi t : R),
    0 <= MultipleOrbitals.probability_density o r theta phi t
    /\ 0 <= SingleOrbital.probability_density (n o) (l o) (m o) r theta phi t
    /\ 0 < 1.0 + 0.1 * sin (VIBRATION_FREQ * t).
Proof.
  intros o r theta phi t.
  split; [apply density_nonneg_multi|].
  split; [apply density_nonneg_single|].
  pose proof (vibration_bounds VIBRATION_FREQ t) as Hv. lra.
Qed.

(** C3.  The radial amplitude is 0 for every [n] other than 1 and 2 and is
    not the zero function for [n = 1] and [n = 2]; the angular amplitude of
    either program is 0 for every [(l, m)] outside
    [{(0,0), (1,0), (1,1), (1,-1)}], whatever the other arguments, and is not
    the zero function on each of these four pairs. *)
Theorem amplitudes_defined_on_table_only :
  (forall (n0 : Z) (r : R),
      n0 <> 1%Z -> n0 <> 2%Z -> radial_function n0 r = 0)
  /\ (forall (o : Orbital) (theta phi : R),
      ~ In (l o, m o) angular_table ->
      MultipleOrbitals.real_spherical_harmonic o theta phi = 0)
  /\ (forall (l0 m0 : Z) (theta phi : R),
      ~ In (l0, m0) angular_table ->
      SingleOrbital.spherical_harmonic l0 m0 theta phi = 0)
  /\ (forall n0 : Z,
      n0 = 1%Z \/ n0 = 2%Z -> exists r : R, radial_function n0 r <> 0)
  /\ (forall l0 m0 : Z,
      In (l0, m0) angular_table ->
      exists theta phi : R,
        MultipleOrbitals.real_spherical_harmonic (with_lm l0 m0) theta phi <> 0
        /\ SingleOrbital.spherical_harmonic l0 m0 theta phi <> 0).
Proof.
  split; [exact radial_function_other|].
  split; [exact real_spherical_harmonic_outside|].
  split; [exact spherical_harmonic_outside|].
  split; [|exact harmonics_nontrivial].
  intros n0 Hn. exists 0. now apply radial_function_nontrivial.
Qed.

Lemma amplitudes_defined_on_table_only_witness :
  radial_function 3 1 = 0
  /\ MultipleOrbitals.real_spherical_harmonic (with_lm 2 0) 1 1 = 0
  /\ SingleOrbital.spherical_harmonic 2 0 1 1 = 0
  /\ (exists r : R, radial_function 1 r <> 0).
Proof.
  destruct amplitudes_defined_on_table_only as (Hr & Hm & Hs & Hn & _).
  split; [apply Hr; lia|].
  split; [apply Hm; simpl; intros [E|[E|[E|[E|[]]]]]; discriminate E|].
  split; [apply Hs; simpl; intros [E|[E|[E|[E|[]]]]]; discriminate E|].
  apply Hn; left; reflexivity.
Defined.

(** ** The two programs' angular parts compared *)

Lemma sqrt_4PI_8PI : sqrt (3.0 / (4.0 * PI)) = sqrt 2 * sqrt (3.0 / (8.0 * PI)).
Proof.
  pose proof PI_bounds as HPI.
  rewrite <- sqrt_mult; [f_equal; unlit; field; lra | lra |].
  apply Rlt_le, Rdiv_lt_0_compat; lra.
Qed.

Lemma sqrt_2_gt_1 : 1 < sqrt 2.
Proof.
  rewrite <- sqrt_1 at 1. apply sqrt_lt_1; lra.
Qed.

Lemma real_spherical_harmonic_eq (o : Orbital) (l0 m0 : Z) (theta phi : R) :
  l o = l0 -> m o = m0 ->
  MultipleOrbitals.real_spherical_harmonic o theta phi
    = MultipleOrbitals.real_spherical_harmonic (with_lm l0 m0) theta phi.
Proof. intros <- <-. reflexivity. Qed.

(** C9, refuted as stated: at [(l, m) = (1, 1)], [theta = 1], [phi = 0] the
    two programs' angular amplitudes are different numbers. *)
Lemma harmonics_differ_at_1_1 :
  MultipleOrbitals.real_spherical_harmonic (with_lm 1 1) 1 0
    <> SingleOrbital.spherical_harmonic 1 1 1 0.
Proof.
  unfold MultipleOrbitals.real_spherical_harmonic,
    SingleOrbital.spherical_harmonic; simpl.
  rewrite cos_0, sqrt_4PI_8PI.
  pose proof sin_1_pos as Hs. pose proof sqrt_2_gt_1 as H2.
  pose proof (sqrt_inv_PI_pos (3.0 / 8.0) ltac:(lra)) as H8.
  replace (3.0 / 8.0 / PI) with (3.0 / (8.0 * PI)) in H8
    by (pose proof PI_bounds; field; lra).
  assert (0 < sqrt (3.0 / (8.0 * PI)) * sin 1) as Hp
    by (apply Rmult_lt_0_compat; assumption).
  apply Rlt_dichotomy_converse; left. nra.
Qed.

(** C9, as the code has it.  The two angular amplitudes are equal for
    [(l, m)] in [{(0,0), (1,0)}] and outside the table (both 0); for [(1,1)]
    the multi-orbital program's value is [sqrt 2] times the single-orbital
    one, for [(1,-1)] it is [- sqrt 2] times it.  Hence the two densities are
    equal in the first cases and differ by the factor 2 for [(1,1)] and
    [(1,-1)]. *)
Theorem harmonics_compared :
  forall (o : Orbital) (r theta phi t : R),
    let Ym := MultipleOrbitals.real_spherical_harmonic o theta phi in
    let Ys := SingleOrbital.spherical_harmonic (l o) (m o) theta phi in
    let Dm := MultipleOrbitals.probability_density o r theta phi t in
    let Ds := SingleOrbital.probability_density (n o) (l o) (m o) r theta phi t in
    ((l o, m o) = (0, 0)%Z \/ (l o, m o) = (1, 0)%Z
       \/ ~ In (l o, m o) angular_table -> Ym = Ys /\ Dm = Ds)
    /\ ((l o, m o) = (1, 1)%Z -> Ym = sqrt 2 * Ys /\ Dm = 2 * Ds)
    /\ ((l o, m o) = (1, -1)%Z -> Ym = - sqrt 2 * Ys /\ Dm = 2 * Ds).
Proof.
  intros o r theta phi t Ym Ys Dm Ds.
  assert (Hsq : sqrt 2 * sqrt 2 = 2) by (apply sqrt_sqrt; lra).
  assert (Hd : forall c : R, Ym = c * Ys -> Dm = (c * c) * Ds).
  { intros c Hc. subst Dm Ds.
    unfold MultipleOrbitals.probability_density,
      SingleOrbital.probability_density. cbv zeta.
    fold Ym Ys. rewrite Hc. ring. }
  split; [|split].
  - intros H.
    assert (HY : Ym = Ys).
    { subst Ym Ys. destruct H as [E | [E | Hout]].
      + pose proof (f_equal fst E) as El; pose proof (f_equal snd E) as Em;
      simpl in El, Em.
        unfold MultipleOrbitals.real_spherical_harmonic,
          SingleOrbital.spherical_harmonic. rewrite El, Em. reflexivity.
      + pose proof (f_equal fst E) as El; pose proof (f_equal snd E) as Em;
      simpl in El, Em.
        unfold MultipleOrbitals.real_spherical_harmonic,
          SingleOrbital.spherical_harmonic. rewrite El, Em. reflexivity.
      + rewrite real_spherical_harmonic_outside, spherical_harmonic_outside
          by assumption. reflexivity. }
    split; [exact HY|].
    rewrite (Hd 1); [ring | rewrite HY; ring].
  - intros E. pose proof (f_equal fst E) as El; pose proof (f_equal snd E) as Em;
      simpl in El, Em.
    assert (HY : Ym = sqrt 2 * Ys).
    { subst Ym Ys.
      unfold MultipleOrbitals.real_spherical_harmonic,
        SingleOrbital.spherical_harmonic. rewrite El, Em. simpl.
      rewrite sqrt_4PI_8PI. ring. }
    split; [exact HY|]. rewrite (Hd _ HY), Hsq. reflexivity.
  - intros E. pose proof (f_equal fst E) as El; pose proof (f_equal snd E) as Em;
      simpl in El, Em.
    assert (HY : Ym = - sqrt 2 * Ys).
    { subst Ym Ys.
      unfold MultipleOrbitals.real_spherical_harmonic,
        SingleOrbital.spherical_harmonic. rewrite El, Em. simpl.
      rewrite sqrt_4PI_8PI. ring. }
    split; [exact HY|]. rewrite (Hd _ HY).
    replace (- sqrt 2 * - sqrt 2) with (sqrt 2 * sqrt 2) by ring.
    rewrite Hsq. reflexivity.
Qed.

Lemma harmonics_compared_witness :
  (MultipleOrbitals.real_spherical_harmonic (with_lm 1 0) 1 0
     = SingleOrbital.spherical_harmonic 1 0 1 0)
  /\ (MultipleOrbitals.real_spherical_harmonic (with_lm 1 1) 1 0
     = sqrt 2 * SingleOrbital.spherical_harmonic 1 1 1 0)
  /\ (MultipleOrbitals.real_spherical_harmonic (with_lm 1 (-1)) 1 0
     = - sqrt 2 * SingleOrbital.spherical_harmonic 1 (-1) 1 0).
Proof.
  split; [|split].
  - apply (proj1 (harmonics_compared (with_lm 1 0) 0 1 0 0)).
    right; left; reflexivity.
  - apply (proj1 (proj2 (harmonics_compared (with_lm 1 1) 0 1 0 0))).
    reflexivity.
  - apply (proj2 (proj2 (harmonics_compared (with_lm 1 (-1)) 0 1 0 0))).
    reflexivity.
Defined.

(** ** The density against the sampler's reference constant *)

Lemma exp_neg_bounds (u : R) : 0 <= u -> 0 < exp (- u) <= 1.
Proof.
  intros Hu. split; [apply exp_pos|].
  destruct (Req_dec u 0) as [-> | Hne].
  - replace (- 0) with 0 by ring. rewrite exp_0. lra.
  - rewrite <- exp_0. apply Rlt_le, exp_increasing. lra.
Qed.

Lemma sqr_le_of_abs (a b : R) : - b <= a <= b -> a * a <= b * b.
Proof. intros [H1 H2]. nra. Qed.

Lemma sin_sqr_le_1 (u : R) : sin u * sin u <= 1.
Proof. pose proof (SIN_bound u). nra. Qed.

Lemma cos_sqr_le_1 (u : R) : cos u * cos u <= 1.
Proof. pose proof (COS_bound u). nra. Qed.

Lemma radial_1_sqr (r : R) :
  0 <= r -> radial_function 1 r * radial_function 1 r <= 4.
Proof.
  intros Hr. rewrite radial_function_1.
  pose proof (exp_neg_bounds r Hr) as [He0 He1]. nra.
Qed.

Lemma radial_2_sqr (r : R) :
  0 <= r <= 8 -> radial_function 2 r * radial_function 2 r <= 9 / 8.
Proof.
  intros [Hr0 Hr8]. rewrite radial_function_2.
  replace (- r / 2) with (- (r / 2)) by lra.
  pose proof (exp_neg_bounds (r / 2) ltac:(lra)) as [He0 He1].
  assert (Hs : sqrt 2 * sqrt 2 = 2) by (apply sqrt_sqrt; lra).
  assert (Hs0 : 0 < sqrt 2) by (apply sqrt_lt_R0; lra).
  set (e := exp (- (r / 2))) in *.
  set (a := 1 - r / 2).
  assert (Ha : a * a <= 9) by (subst a; nra).
  assert (He : e * e <= 1) by nra.
  replace (1 / (2 * sqrt 2) * a * e * (1 / (2 * sqrt 2) * a * e))
    with ((a * a) * (e * e) / (4 * (sqrt 2 * sqrt 2))) by (field; lra).
  rewrite Hs.
  assert (0 <= a * a) by nra. assert (0 <= e * e) by nra.
  assert ((a * a) * (e * e) <= 9 * 1) by (apply Rmult_le_compat; lra).
  lra.
Qed.

Lemma harmonic_s_sqr (theta phi : R) :
  let Y := MultipleOrbitals.real_spherical_harmonic (with_lm 0 0) theta phi in
  Y * Y <= 1 / 12.
Proof.
  unfold MultipleOrbitals.real_spherical_harmonic; simpl.
  pose proof PI_bounds as HPI.
  assert (Hs : sqrt (1.0 / PI) * sqrt (1.0 / PI) = 1.0 / PI).
  { apply sqrt_sqrt. apply Rlt_le, Rdiv_lt_0_compat; lra. }
  assert (Hi : 1.0 / PI < 1 / 3).
  { unlit. apply Rmult_lt_reg_r with (r := PI); [lra|].
    field_simplify; lra. }
  nra.
Qed.

Lemma harmonic_p_sqr (m0 : Z) (theta phi : R) :
  let Y := MultipleOrbitals.real_spherical_harmonic (with_lm 1 m0) theta phi in
  Y * Y <= 1 / 4.
Proof.
  pose proof PI_bounds as HPI.
  set (c := sqrt (3.0 / (4.0 * PI))).
  assert (Hc : c * c <= 1 / 4).
  { subst c. rewrite sqrt_sqrt.
    - unlit. apply Rmult_le_reg_r with (r := PI); [lra|].
      field_simplify; lra.
    - apply Rlt_le, Rdiv_lt_0_compat; lra. }
  assert (Hc0 : 0 <= c * c) by nra.
  pose proof (sin_sqr_le_1 theta) as Hst. pose proof (cos_sqr_le_1 theta) as Hct.
  pose proof (sin_sqr_le_1 phi) as Hsp. pose proof (cos_sqr_le_1 phi) as Hcp.
  assert (Hst0 : 0 <= sin theta * sin theta) by nra.
  assert (Hsp0 : 0 <= sin phi * sin phi) by nra.
  assert (Hcp0 : 0 <= cos phi * cos phi) by nra.
  assert (Hct0 : 0 <= cos theta * cos theta) by nra.
  assert (H3 : forall u v : R, 0 <= u <= 1 -> 0 <= v <= 1 ->
                 (c * c) * u * v <= 1 / 4).
  { intros u v Hu Hv.
    assert ((c * c) * u <= (1 / 4) * 1) by (apply Rmult_le_compat; lra).
    assert (0 <= (c * c) * u) by (apply Rmult_le_pos; lra).
    assert ((c * c) * u * v <= (1 / 4) * 1) by (apply Rmult_le_compat; lra).
    lra. }
  unfold MultipleOrbitals.real_spherical_harmonic; simpl.
  destruct (Z.eqb_spec m0 0); [|destruct (Z.eqb_spec m0 1);
    [|destruct (Z.eqb_spec m0 (-1))]]; fold c.
  - replace (c * cos theta * (c * cos theta))
      with ((c * c) * (cos theta * cos theta) * 1) by ring.
    apply H3; lra.
  - replace (- c * sin theta * cos phi * (- c * sin theta * cos phi))
      with ((c * c) * (sin theta * sin theta) * (cos phi * cos phi)) by ring.
    apply H3; lra.
  - replace (- c * sin theta * sin phi * (- c * sin theta * sin phi))
      with ((c * c) * (sin theta * sin theta) * (sin phi * sin phi)) by ring.
    apply H3; lra.
  - lra.
Qed.

Lemma density_from_squares (a b v : R) (A B : R) :
  a * a <= A -> b * b <= B -> 0 <= A -> 0 <= B -> A * B <= 1 / 2 ->
  0.9 <= v <= 1.1 ->
  (a * b) * (a * b) * v < 1.
Proof.
  intros Ha Hb HA HB HAB Hv.
  assert (0 <= a * a) by nra. assert (0 <= b * b) by nra.
  assert ((a * a) * (b * b) <= A * B) by (apply Rmult_le_compat; lra).
  replace (a * b * (a * b)) with ((a * a) * (b * b)) by ring.
  assert (0 <= (a * a) * (b * b)) by (apply Rmult_le_pos; lra).
  nra.
Qed.

(** C10.  For each of the four catalogue orbitals, every radius of the
    sampling domain, every pair of angles and every time, the density is
    strictly below [max_prob = 1.0], so the acceptance ratio
    [prob / max_prob] never exceeds 1. *)
Theorem density_below_max_prob :
  forall (o : Orbital) (r theta phi t : R),
    In o MultipleOrbitals.orbitals ->
    0 <= r <= MultipleOrbitals.r_max ->
    MultipleOrbitals.probability_density o r theta phi t
      < MultipleOrbitals.max_prob
    /\ MultipleOrbitals.probability_density o r theta phi t
         / MultipleOrbitals.max_prob < 1.
Proof.
  intros o r theta phi t Ho Hr.
  assert (Hr8 : 0 <= r <= 8).
  { unfold MultipleOrbitals.r_max, BOHR_RADIUS in Hr. lra. }
  pose proof (vibration_bounds VIBRATION_FREQ t) as Hv.
  assert (H : MultipleOrbitals.probability_density o r theta phi t < 1).
  { unfold MultipleOrbitals.probability_density. cbv zeta.
    simpl in Ho. destruct Ho as [<- | [<- | [<- | [<- | []]]]]; simpl n.
    - rewrite (real_spherical_harmonic_eq _ 0 0) by reflexivity.
      apply density_from_squares with (A := 4) (B := 1 / 12);
        [apply radial_1_sqr; lra | apply harmonic_s_sqr | lra .. | exact Hv].
    - rewrite (real_spherical_harmonic_eq _ 1 1) by reflexivity.
      apply density_from_squares with (A := 9 / 8) (B := 1 / 4);
        [apply radial_2_sqr; lra | apply harmonic_p_sqr | lra .. | exact Hv].
    - rewrite (real_spherical_harmonic_eq _ 1 (-1)) by reflexivity.
      apply density_from_squares with (A := 9 / 8) (B := 1 / 4);
        [apply radial_2_sqr; lra | apply harmonic_p_sqr | lra .. | exact Hv].
    - rewrite (real_spherical_harmonic_eq _ 1 0) by reflexivity.
      apply density_from_squares with (A := 9 / 8) (B := 1 / 4);
        [apply radial_2_sqr; lra | apply harmonic_p_sqr | lra .. | exact Hv]. }
  unfold MultipleOrbitals.max_prob. lra.
Qed.

Lemma density_below_max_prob_witness :
  MultipleOrbitals.probability_density
    (mkOrbital 2 1 1 2.0 "2px" (mkVector3f 0.0 1.0 0.0)) 0 1 0 0
    < MultipleOrbitals.max_prob.
Proof.
  apply (density_below_max_prob
           (mkOrbital 2 1 1 2.0 "2px" (mkVector3f 0.0 1.0 0.0)) 0 1 0 0).
  - simpl. right; left; reflexivity.
  - unfold MultipleOrbitals.r_max, BOHR_RADIUS. lra.
Defined.

(** ** The acceptance loop *)

Section AcceptanceLoopFacts.

Variable prob_at : R -> R -> R -> R.
Variable max_prob : R.

Local Abbreviation loop := (acceptance_loop prob_at max_prob).
Local Abbreviation count := (accepted_count prob_at max_prob).
Local Abbreviation accepted := (accepts prob_at max_prob).

Lemma NUM_POINTS_pos : (0 < NUM_POINTS)%Z.
Proof. reflexivity. Qed.

Lemma acceptance_loop_length (gen : nat -> Draw) (fuel : nat) :
  forall (i : nat) (pts pts' : list Vector3f),
    (Z.of_nat (List.length pts) <= NUM_POINTS)%Z ->
    loop gen fuel i pts = Some pts' ->
    Z.of_nat (List.length pts') = NUM_POINTS.
Proof.
  induction fuel as [|fuel IH]; intros i pts pts' Hlen Hrun; simpl in Hrun;
    destruct (Z.ltb_spec (Z.of_nat (List.length pts)) NUM_POINTS) as [Hlt|Hge];
    try discriminate; try (injection Hrun as <-; lia).
  destruct (accepts_dec prob_at max_prob (gen i)).
  - apply IH in Hrun; [exact Hrun|].
    rewrite length_app; simpl. lia.
  - apply IH in Hrun; assumption.
Qed.

Lemma accepted_count_add (gen : nat -> Draw) (a b : nat) :
  forall i : nat, count gen i (a + b) = (count gen i a + count gen (i + a) b)%nat.
Proof.
  induction a as [|a IH]; intros i; simpl.
  - rewrite Nat.add_0_r. reflexivity.
  - rewrite IH. replace (S i + a)%nat with (i + S a)%nat by lia. lia.
Qed.

Lemma accepted_count_one (gen : nat -> Draw) (i : nat) :
  accepted (gen i) -> count gen i 1 = 1%nat.
Proof.
  intros Hacc. simpl.
  destruct (accepts_dec prob_at max_prob (gen i)); [reflexivity | contradiction].
Qed.

(** The loop returns exactly when the draws it may consume contain enough
    accepted ones to fill the vector. *)
Lemma acceptance_loop_decides (gen : nat -> Draw) (fuel : nat) :
  forall (i : nat) (pts : list Vector3f),
    (Z.of_nat (List.length pts) <= NUM_POINTS)%Z ->
    ((NUM_POINTS <= Z.of_nat (List.length pts + count gen i fuel))%Z ->
       exists pts', loop gen fuel i pts = Some pts')
    /\ ((Z.of_nat (List.length pts + count gen i fuel) < NUM_POINTS)%Z ->
       loop gen fuel i pts = None).
Proof.
  induction fuel as [|fuel IH]; intros i pts Hlen; simpl;
    destruct (Z.ltb_spec (Z.of_nat (List.length pts)) NUM_POINTS) as [Hlt|Hge].
  - split; [lia | reflexivity].
  - split; [eauto | lia].
  - destruct (accepts_dec prob_at max_prob (gen i)) as [Hacc|Hrej].
    + specialize (IH (S i)
        (pts ++ [to_cartesian (d_r (gen i)) (d_theta (gen i)) (d_phi (gen i))])).
      rewrite length_app in IH; simpl in IH.
      destruct IH as [IH1 IH2]; [lia|].
      split; intros H; [apply IH1 | apply IH2]; lia.
    + destruct (IH (S i) pts Hlen) as [IH1 IH2].
      split; intros H; [apply IH1 | apply IH2]; simpl in H; lia.
  - split; [eauto | lia].
Qed.

Lemma acceptance_loop_never (gen : nat -> Draw) :
  (forall i : nat, ~ accepted (gen i)) ->
  forall fuel : nat, loop gen fuel 0 [] = None.
Proof.
  intros Hrej fuel.
  assert (Hc : forall k i, count gen i k = 0%nat).
  { induction k as [|k IH]; intros i; simpl; [reflexivity|].
    destruct (accepts_dec prob_at max_prob (gen i)) as [Hacc|_];
      [exfalso; exact (Hrej i Hacc) | apply IH]. }
  apply (acceptance_loop_decides gen fuel 0 []); simpl.
  - pose proof NUM_POINTS_pos; lia.
  - rewrite Hc. exact NUM_POINTS_pos.
Qed.

(** A source that keeps delivering an accepted draw delivers as many
    accepted draws as one asks for. *)
Lemma recurrent_accepted_count (gen : nat -> Draw) (d : Draw) :
  accepted d -> recurrent gen d ->
  forall k : nat, exists fuel : nat, (k <= count gen 0 fuel)%nat.
Proof.
  intros Hacc Hrec. induction k as [|k [fuel IH]].
  - exists 0%nat. simpl. lia.
  - destruct (Hrec fuel) as (j & Hj & Hd).
    exists (fuel + ((j - fuel) + 1))%nat.
    rewrite accepted_count_add. simpl (0 + fuel)%nat.
    rewrite accepted_count_add.
    replace (fuel + (j - fuel))%nat with j by lia.
    rewrite accepted_count_one by (rewrite Hd; exact Hacc). lia.
Qed.

Lemma acceptance_loop_recurrent (gen : nat -> Draw) (d : Draw) :
  accepted d -> recurrent gen d ->
  exists (fuel : nat) (pts : list Vector3f),
    loop gen fuel 0 [] = Some pts /\ Z.of_nat (List.length pts) = NUM_POINTS.
Proof.
  intros Hacc Hrec.
  destruct (recurrent_accepted_count gen d Hacc Hrec (Z.to_nat NUM_POINTS))
    as [fuel Hfuel].
  pose proof NUM_POINTS_pos as Hpos.
  destruct (acceptance_loop_decides gen fuel 0 []) as [Hsome _];
    [simpl; lia|].
  destruct Hsome as [pts Hpts]; [simpl; lia|].
  exists fuel, pts. split; [exact Hpts|].
  apply (acceptance_loop_length gen fuel 0 [] pts); [simpl; lia | exact Hpts].
Qed.

(** Every returned point is the conversion of an accepted draw. *)
Lemma acceptance_loop_points (gen : nat -> Draw) (P : Vector3f -> Prop) :
  (forall i : nat, accepted (gen i) ->
     P (to_cartesian (d_r (gen i)) (d_theta (gen i)) (d_phi (gen i)))) ->
  forall (fuel i : nat) (pts pts' : list Vector3f),
    Forall P pts -> loop gen fuel i pts = Some pts' -> Forall P pts'.
Proof.
  intros HP. induction fuel as [|fuel IH]; intros i pts pts' Hpts Hrun;
    simpl in Hrun;
    destruct (Z.of_nat (List.length pts) <? NUM_POINTS)%Z;
    try discriminate; try (injection Hrun as <-; exact Hpts).
  destruct (accepts_dec prob_at max_prob (gen i)) as [Hacc|_].
  - apply IH in Hrun; [exact Hrun|].
    apply Forall_app; split; [exact Hpts|]. constructor; [auto | constructor].
  - apply IH in Hrun; assumption.
Qed.

End AcceptanceLoopFacts.

(** ** Draw sequences over a finite support *)

Lemma length_draw_seqs (D : list Draw) (k : nat) :
  List.length (draw_seqs D k) = (List.length D ^ k)%nat.
Proof.
  induction k as [|k IH]; [reflexivity|].
  simpl draw_seqs. rewrite length_flat_map.
  assert (H : forall D' : list Draw,
    list_sum (map (fun d => List.length (map (cons d) (draw_seqs D k))) D')
    = (List.length D' * List.length D ^ k)%nat).
  { induction D' as [|d D' IHD]; simpl; [reflexivity|].
    rewrite IHD, length_map, IH. reflexivity. }
  rewrite H. reflexivity.
Qed.

Lemma draw_seqs_length (D : list Draw) (k : nat) (ds : list Draw) :
  In ds (draw_seqs D k) -> List.length ds = k.
Proof.
  revert ds. induction k as [|k IH]; intros ds Hin; simpl in Hin.
  - destruct Hin as [<- | []]. reflexivity.
  - apply in_flat_map in Hin. destruct Hin as (d & _ & Hin).
    apply in_map_iff in Hin. destruct Hin as (ds' & <- & Hin).
    simpl. f_equal. apply IH. exact Hin.
Qed.

Section TailBound.

Variable prob_at : R -> R -> R -> R.
Variable max_prob : R.

Local Abbreviation loop := (acceptance_loop prob_at max_prob).
Local Abbreviation count := (accepted_count prob_at max_prob).
Local Abbreviation acc_dec := (accepts_dec prob_at max_prob).
Local Abbreviation hits := (hits prob_at max_prob).
Local Abbreviation accepted_b := (accepted_b prob_at max_prob).
Local Abbreviation short_count := (short_count prob_at max_prob).

Lemma accepted_count_shift (d : Draw) (ds : list Draw) (k : nat) :
  forall i : nat,
    count (source_of (d :: ds)) (S i) k = count (source_of ds) i k.
Proof.
  induction k as [|k IH]; intros i; simpl; [reflexivity|].
  rewrite IH. reflexivity.
Qed.

Lemma accepted_count_hits (ds : list Draw) :
  count (source_of ds) 0 (List.length ds) = hits ds.
Proof.
  induction ds as [|d ds IH]; simpl; [reflexivity|].
  rewrite accepted_count_shift, IH. reflexivity.
Qed.

Lemma still_running_hits (ds : list Draw) :
  still_running (fun gen fuel => loop gen fuel 0 []) ds
    = (hits ds <? Z.to_nat NUM_POINTS)%nat.
Proof.
  unfold still_running.
  pose proof NUM_POINTS_pos as Hpos.
  destruct (acceptance_loop_decides prob_at max_prob (source_of ds)
              (List.length ds) 0 []) as [Hsome Hnone]; [simpl; lia|].
  rewrite accepted_count_hits in Hsome, Hnone. simpl in Hsome, Hnone.
  destruct (Nat.ltb_spec (hits ds) (Z.to_nat NUM_POINTS)) as [Hlt|Hge].
  - rewrite Hnone by lia. reflexivity.
  - destruct Hsome as [pts ->]; [lia | reflexivity].
Qed.

Lemma short_count_0 (D : list Draw) (k : nat) : short_count D k 0 = 0%nat.
Proof.
  unfold short_count. induction (draw_seqs D k) as [|ds L IH]; simpl; auto.
Qed.

Lemma short_count_le (D : list Draw) (k need : nat) :
  (short_count D k need <= List.length D ^ k)%nat.
Proof.
  unfold short_count. rewrite <- length_draw_seqs. apply filter_length_le.
Qed.

Lemma short_count_step (D : list Draw) (k need : nat) :
  short_count D (S k) (S need)
  = (List.length (filter accepted_b D) * short_count D k need
     + List.length (filter (fun d => negb (accepted_b d)) D)
       * short_count D k (S need))%nat.
Proof.
  unfold short_count. simpl draw_seqs.
  generalize (draw_seqs D k) as L. intros L.
  induction D as [|d D IH]; [reflexivity|].
  simpl flat_map. rewrite filter_app, length_app, IH. clear IH.
  assert (Hd : List.length
                 (filter (fun ds => (hits ds <? S need)%nat) (map (cons d) L))
               = if accepted_b d
                 then List.length (filter (fun ds => (hits ds <? need)%nat) L)
                 else List.length (filter (fun ds => (hits ds <? S need)%nat) L)).
  { rewrite filter_map_swap, length_map. unfold accepted_b.
    destruct (acc_dec d) as [Hacc|Hrej] eqn:E; f_equal;
      apply filter_ext; intros ds; simpl; rewrite E; reflexivity. }
  rewrite Hd. simpl filter.
  destruct (accepted_b d); simpl; lia.
Qed.

Lemma short_count_bound (D : list Draw) :
  forall k need : nat,
    (2 ^ k * short_count D k need
     <= 2 ^ need
        * (List.length (filter accepted_b D)
           + 2 * List.length (filter (fun d => negb (accepted_b d)) D)) ^ k)%nat.
Proof.
  set (a := List.length (filter accepted_b D)).
  set (q := List.length (filter (fun d => negb (accepted_b d)) D)).
  induction k as [|k IH]; intros need.
  - pose proof (short_count_le D 0 need) as H. simpl in *.
    assert (1 <= 2 ^ need)%nat by (apply Nat.neq_0_lt_0, Nat.pow_nonzero; lia).
    lia.
  - destruct need as [|need]; [rewrite short_count_0; lia|].
    rewrite short_count_step. fold a q.
    pose proof (IH need) as H1. pose proof (IH (S need)) as H2.
    set (X := ((a + 2 * q) ^ k)%nat) in *.
    set (B1 := short_count D k need) in *.
    set (B2 := short_count D k (S need)) in *.
    rewrite !Nat.pow_succ_r'. fold X.
    set (P := (2 ^ k)%nat) in *. set (Q := (2 ^ need)%nat) in *.
    rewrite Nat.pow_succ_r' in H2. fold Q in H2.
    assert (Ha : (a * (P * B1) <= a * (Q * X))%nat)
      by (apply Nat.mul_le_mono_l; exact H1).
    assert (Hq : (q * (P * B2) <= q * (2 * Q * X))%nat)
      by (apply Nat.mul_le_mono_l; exact H2).
    nia.
Qed.

Lemma short_count_vanishes (D : list Draw) (need : nat) :
  (1 <= List.length (filter accepted_b D))%nat ->
  forall eps : R, 0 < eps ->
    exists k0 : nat, forall k : nat, (k0 <= k)%nat ->
      INR (short_count D k need) <= eps * INR (List.length D) ^ k.
Proof.
  intros Ha eps Heps.
  pose proof (filter_length accepted_b D) as Hm.
  set (a := List.length (filter accepted_b D)) in *.
  set (q := List.length (filter (fun d => negb (accepted_b d)) D)) in *.
  assert (HA : 1 <= INR a) by (apply (le_INR 1); exact Ha).
  assert (HQ : 0 <= INR q) by apply pos_INR.
  assert (HM : INR (List.length D) = INR a + INR q)
    by (rewrite <- Hm; apply plus_INR).
  set (rho := (INR a + 2 * INR q) / (2 * (INR a + INR q))).
  assert (Hrho : 0 < rho < 1).
  { unfold rho. split.
    - apply Rdiv_lt_0_compat; lra.
    - apply Rmult_lt_reg_r with (r := 2 * (INR a + INR q)); [lra|].
      unfold Rdiv. rewrite Rmult_assoc, Rinv_l by lra. lra. }
  assert (H2n : 0 < 2 ^ need) by (apply pow_lt; lra).
  destruct (pow_lt_1_zero rho) with (y := eps / 2 ^ need) as [k0 Hk0].
  { rewrite Rabs_pos_eq; lra. }
  { apply Rdiv_lt_0_compat; assumption. }
  exists k0. intros k Hk.
  specialize (Hk0 k Hk). rewrite Rabs_pos_eq in Hk0
    by (apply pow_le; lra).
  pose proof (short_count_bound D k need) as Hb. fold a q in Hb.
  apply le_INR in Hb.
  rewrite !mult_INR, !pow_INR, plus_INR, mult_INR in Hb.
  change (INR 2) with 2 in Hb.
  rewrite HM.
  assert (Hsplit : (INR a + 2 * INR q) ^ k
                   = rho ^ k * (2 ^ k * (INR a + INR q) ^ k)).
  { rewrite <- !Rpow_mult_distr. f_equal. unfold rho. field. lra. }
  rewrite Hsplit in Hb.
  assert (H2k : 0 < 2 ^ k) by (apply pow_lt; lra).
  assert (HMk : 0 <= (INR a + INR q) ^ k) by (apply pow_le; lra).
  set (B := INR (short_count D k need)) in *.
  set (Mk := (INR a + INR q) ^ k) in *.
  assert (HB : B <= 2 ^ need * rho ^ k * Mk).
  { apply Rmult_le_reg_l with (r := 2 ^ k); [exact H2k|]. nra. }
  assert (Hr : 2 ^ need * rho ^ k <= eps).
  { apply Rmult_le_reg_r with (r := / 2 ^ need);
      [apply Rinv_0_lt_compat; exact H2n|].
    replace (2 ^ need * rho ^ k * / 2 ^ need) with (rho ^ k)
      by (field; lra).
    unfold Rdiv in Hk0. lra. }
  apply Rle_trans with (1 := HB).
  apply Rmult_le_compat_r; assumption.
Qed.

Lemma running_count_short (D : list Draw) (k : nat) :
  running_count (fun gen fuel => loop gen fuel 0 []) D k
    = short_count D k (Z.to_nat NUM_POINTS).
Proof.
  unfold running_count, short_count. f_equal.
  apply filter_ext. exact still_running_hits.
Qed.

Lemma accepted_in_support (D : list Draw) (d : Draw) :
  In d D -> accepts prob_at max_prob d ->
  (1 <= List.length (filter accepted_b D))%nat.
Proof.
  intros Hin Hacc.
  assert (Hf : In d (filter accepted_b D)).
  { apply filter_In. split; [exact Hin|]. unfold accepted_b.
    destruct (acc_dec d); [reflexivity | contradiction]. }
  destruct (filter accepted_b D); [destruct Hf | simpl; lia].
Qed.

End TailBound.

Lemma recurrent_const (d : Draw) : recurrent (fun _ => d) d.
Proof. intros N. exists N. split; [lia | reflexivity]. Qed.

(** A source that delivers one accepted draw for ever fills the vector with
    its point in exactly [NUM_POINTS] iterations. *)
Lemma acceptance_loop_const (prob_at : R -> R -> R -> R) (max_prob : R) (d : Draw) :
  accepts prob_at max_prob d ->
  forall (k i : nat) (pts : list Vector3f),
    (Z.of_nat (List.length pts) + Z.of_nat k = NUM_POINTS)%Z ->
    acceptance_loop prob_at max_prob (fun _ => d) k i pts
      = Some (pts ++ repeat (to_cartesian (d_r d) (d_theta d) (d_phi d)) k).
Proof.
  intros Hacc. induction k as [|k IH]; intros i pts Hlen; simpl.
  - destruct (Z.ltb_spec (Z.of_nat (List.length pts)) NUM_POINTS); [lia|].
    rewrite app_nil_r. reflexivity.
  - destruct (Z.ltb_spec (Z.of_nat (List.length pts)) NUM_POINTS); [|lia].
    destruct (accepts_dec prob_at max_prob d) as [_|Hrej]; [|contradiction].
    rewrite IH by (rewrite length_app; simpl; lia).
    rewrite <- app_assoc. reflexivity.
Qed.

(** ** The point generator *)

Lemma sampler_contract_intro (density : R -> R -> R -> R)
    (in_range : Draw -> Prop) :
  (forall r theta phi, 0 <= density r theta phi) ->
  (forall d, in_range d -> 0 <= d_u d) ->
  sampler_contract density in_range
    (fun gen fuel => acceptance_loop density 1.0 gen fuel 0 []).
Proof.
  intros Hnonneg Hu.
  assert (Hacc0 : forall r theta phi,
            density r theta phi <> 0 ->
            accepts density 1.0 (mkDraw r theta phi 0)).
  { intros r theta phi Hne. unfold accepts; simpl.
    pose proof (Hnonneg r theta phi). unlit. lra. }
  repeat split.
  - intros gen fuel pts Hrun.
    apply (acceptance_loop_length density 1.0 gen fuel 0 [] pts);
      [simpl; pose proof NUM_POINTS_pos; lia | exact Hrun].
  - intros gen r theta phi Hne Hrec.
    exact (acceptance_loop_recurrent density 1.0 gen _ (Hacc0 _ _ _ Hne) Hrec).
  - intros D (r & theta & phi & Hin & Hne) eps Heps.
    destruct (short_count_vanishes density 1.0 D (Z.to_nat NUM_POINTS)
                (accepted_in_support density 1.0 D _ Hin (Hacc0 _ _ _ Hne))
                eps Heps) as [k0 Hk0].
    exists k0. intros k Hk.
    rewrite (running_count_short density 1.0 D). exact (Hk0 k Hk).
  - intros Hzero gen Hgen fuel.
    apply acceptance_loop_never. intros i Hacc.
    unfold accepts in Hacc. rewrite (Hzero _ (Hgen i)) in Hacc.
    pose proof (Hu _ (Hgen i)). unlit. lra.
Qed.

Lemma density_zero_of_unsupported (o : Orbital) (r theta phi t : R) :
  unsupported o ->
  MultipleOrbitals.probability_density o r theta phi t = 0
  /\ SingleOrbital.probability_density (n o) (l o) (m o) r theta phi t = 0.
Proof.
  unfold MultipleOrbitals.probability_density,
    SingleOrbital.probability_density. cbv zeta.
  intros [[H1 H2] | Hout].
  - rewrite radial_function_other by assumption. split; ring.
  - rewrite real_spherical_harmonic_outside, spherical_harmonic_outside
      by assumption. split; ring.
Qed.

Lemma in_range_origin :
  MultipleOrbitals.in_range (mkDraw 0 0 0 0)
  /\ SingleOrbital.in_range (mkDraw 0 0 0 0).
Proof.
  pose proof PI_bounds.
  unfold MultipleOrbitals.in_range, SingleOrbital.in_range,
    MultipleOrbitals.r_max, SingleOrbital.r_max, BOHR_RADIUS; simpl.
  repeat split; lra.
Qed.

Lemma density_1s_origin (t : R) :
  MultipleOrbitals.probability_density SingleOrbital.orbital 0 0 0 t <> 0.
Proof.
  unfold MultipleOrbitals.probability_density. cbv zeta.
  pose proof (vibration_bounds VIBRATION_FREQ t) as Hv.
  pose proof (radial_function_nontrivial 1 (or_introl eq_refl)) as HR.
  pose proof (sqrt_inv_PI_pos 1.0 ltac:(lra)) as HY.
  assert (HY' : MultipleOrbitals.real_spherical_harmonic
                  SingleOrbital.orbital 0 0 <> 0).
  { unfold MultipleOrbitals.real_spherical_harmonic; simpl. lra. }
  simpl n.
  assert (Hpsi : radial_function 1 0
                   * MultipleOrbitals.real_spherical_harmonic
                       SingleOrbital.orbital 0 0 <> 0)
    by (apply Rmult_integral_contrapositive_currified; assumption).
  apply Rmult_integral_contrapositive_currified; [|lra].
  apply Rmult_integral_contrapositive_currified; exact Hpsi.
Qed.

(** C1.  For every orbital and time, in either program: a call of the point
    generator that returns, returns exactly [NUM_POINTS] points.  When the
    density is not zero at some point of the domain the call terminates:
    on every random source that keeps drawing such a point it returns, and
    when the iterations draw from finitely many equally likely draws
    containing such a point, the probability that it is still running
    after [k] iterations tends to 0.  When the density is zero on the whole
    domain, in particular for an orbital outside the implemented table, the
    acceptance loop never terminates, whatever the random source
    delivers. *)
Theorem generate_orbital_points_termination :
  forall (o : Orbital) (t : R),
    sampler_contract
      (fun r theta phi => MultipleOrbitals.probability_density o r theta phi t)
      MultipleOrbitals.in_range
      (MultipleOrbitals.generate_orbital_points o t)
    /\ sampler_contract
      (fun r theta phi =>
         SingleOrbital.probability_density (n o) (l o) (m o) r theta phi t)
      SingleOrbital.in_range
      (SingleOrbital.generate_orbital_points o t)
    /\ (unsupported o ->
        (forall gen, (forall i, MultipleOrbitals.in_range (gen i)) ->
           never_returns (MultipleOrbitals.generate_orbital_points o t gen))
        /\ (forall gen, (forall i, SingleOrbital.in_range (gen i)) ->
           never_returns (SingleOrbital.generate_orbital_points o t gen))).
Proof.
  intros o t.
  assert (HM : sampler_contract
      (fun r theta phi => MultipleOrbitals.probability_density o r theta phi t)
      MultipleOrbitals.in_range
      (MultipleOrbitals.generate_orbital_points o t)).
  { apply (sampler_contract_intro
      (fun r theta phi => MultipleOrbitals.probability_density o r theta phi t)).
    - intros r theta phi. apply density_nonneg_multi.
    - intros d (_ & _ & _ & Hu & _). unlit. lra. }
  assert (HS : sampler_contract
      (fun r theta phi =>
         SingleOrbital.probability_density (n o) (l o) (m o) r theta phi t)
      SingleOrbital.in_range
      (SingleOrbital.generate_orbital_points o t)).
  { apply (sampler_contract_intro
      (fun r theta phi =>
         SingleOrbital.probability_density (n o) (l o) (m o) r theta phi t)).
    - intros r theta phi. apply density_nonneg_single.
    - intros d (_ & _ & _ & Hu & _). unlit. lra. }
  split; [exact HM | split; [exact HS|]].
  intros Hun. split.
  - apply (proj2 (proj2 (proj2 HM))). intros d _.
    apply density_zero_of_unsupported; exact Hun.
  - apply (proj2 (proj2 (proj2 HS))). intros d _.
    apply density_zero_of_unsupported; exact Hun.
Qed.

Lemma generate_orbital_points_termination_witness :
  returns_full_set
    (MultipleOrbitals.generate_orbital_points SingleOrbital.orbital 0
       (fun _ => mkDraw 0 0 0 0))
  /\ (exists k0 : nat, forall k : nat, (k0 <= k)%nat ->
        INR (running_count
               (MultipleOrbitals.generate_orbital_points SingleOrbital.orbital 0)
               [mkDraw 0 0 0 0; mkDraw 0 0 0 0.5] k)
        <= 0.001 * INR 2 ^ k)
  /\ never_returns
    (MultipleOrbitals.generate_orbital_points
       (mkOrbital 3 0 0 2.0 "3s" (mkVector3f 1.0 1.0 1.0)) 0
       (fun _ => mkDraw 0 0 0 0)).
Proof.
  split.
  - apply (proj1 (proj2 (proj1
             (generate_orbital_points_termination SingleOrbital.orbital 0)))
           (fun _ => mkDraw 0 0 0 0) 0 0 0).
    + apply density_1s_origin.
    + apply recurrent_const.
  - split.
    + apply (proj1 (proj2 (proj2 (proj1
               (generate_orbital_points_termination SingleOrbital.orbital 0))))
             [mkDraw 0 0 0 0; mkDraw 0 0 0 0.5]).
      * exists 0, 0, 0. split; [left; reflexivity | apply density_1s_origin].
      * lra.
    + refine (proj1 (proj2 (proj2
              (generate_orbital_points_termination
                 (mkOrbital 3 0 0 2.0 "3s" (mkVector3f 1.0 1.0 1.0)) 0)) _) _ _).
      * left. simpl. split; lia.
      * intros _. apply in_range_origin.
Defined.



(** ** The regeneration scheduler *)

Lemma orbital_at_valid (i : Z) :
  (0 <= i < Z.of_nat (List.length MultipleOrbitals.orbitals))%Z ->
  exists o : Orbital,
    MultipleOrbitals.orbital_at i = Some o /\ In o MultipleOrbitals.orbitals.
Proof.
  intros Hi. unfold MultipleOrbitals.orbital_at.
  destruct (Z.ltb_spec i 0) as [Hneg|_]; [lia|].
  destruct (nth_error MultipleOrbitals.orbitals (Z.to_nat i)) as [o|] eqn:E.
  - exists o. split; [reflexivity | eapply nth_error_In; exact E].
  - apply nth_error_None in E. lia.
Qed.

Lemma handle_key_valid (Num1 Num4 code : Z) (s : MultipleOrbitals.State) :
  Num4 = (Num1 + 3)%Z ->
  (0 <= code - Num1 < Z.of_nat (List.length MultipleOrbitals.orbitals))%Z ->
  MultipleOrbitals.handle_event Num1 Num4 (MultipleOrbitals.KeyPressed code) s
    = MultipleOrbitals.mkState (MultipleOrbitals.window_open s) (code - Num1)
        (MultipleOrbitals.points s) (MultipleOrbitals.angle s) (-100.0).
Proof.
  intros HNum Hidx. simpl in Hidx. unfold MultipleOrbitals.handle_event.
  destruct (Z.geb_spec code Num1) as [_|Hlt]; [|lia].
  destruct (Z.leb_spec code Num4) as [_|Hgt]; [|lia].
  simpl andb. cbv zeta. unfold MultipleOrbitals.to_size_t.
  rewrite Z.mod_small by lia.
  destruct (Z.ltb_spec (code - Num1)
              (Z.of_nat (List.length MultipleOrbitals.orbitals))) as [_|Hge];
    [reflexivity | simpl in Hge; lia].
Qed.

Lemma handle_key_invalid (Num1 Num4 code : Z) (s : MultipleOrbitals.State) :
  Num4 = (Num1 + 3)%Z ->
  ~ (0 <= code - Num1 < Z.of_nat (List.length MultipleOrbitals.orbitals))%Z ->
  MultipleOrbitals.handle_event Num1 Num4 (MultipleOrbitals.KeyPressed code) s
    = s.
Proof.
  intros HNum Hidx. simpl in Hidx. unfold MultipleOrbitals.handle_event.
  destruct (Z.geb_spec code Num1) as [Hge|_]; [|reflexivity].
  destruct (Z.leb_spec code Num4) as [Hle|_]; [|reflexivity].
  lia.
Qed.

Lemma regenerate_due (s : MultipleOrbitals.State) (now : R)
    (gen : nat -> Draw) (fuel : nat) (o : Orbital) :
  now - MultipleOrbitals.last_generation_time s > 0.5 ->
  MultipleOrbitals.orbital_at (MultipleOrbitals.current_orbital s) = Some o ->
  MultipleOrbitals.regenerate now gen fuel s
    = option_map
        (fun pts =>
           MultipleOrbitals.mkState (MultipleOrbitals.window_open s)
             (MultipleOrbitals.current_orbital s) pts
             (MultipleOrbitals.angle s) now)
        (MultipleOrbitals.generate_orbital_points o now gen fuel).
Proof.
  intros Hgt Ho. unfold MultipleOrbitals.regenerate. rewrite Ho.
  destruct (Rgt_dec (now - MultipleOrbitals.last_generation_time s) 0.5);
    [|contradiction].
  destruct (MultipleOrbitals.generate_orbital_points o now gen fuel);
    reflexivity.
Qed.

(** C8.  A key press whose index [code - Num1] lies outside
    [[0, catalogue size)] leaves the whole state, so the current orbital and
    the last-generation timestamp, as it was; one whose index lies inside
    makes that index the current orbital.  [Num1 .. Num4] are four
    consecutive key codes. *)
Theorem select_orbital_range_check :
  forall (Num1 Num4 code : Z) (s : MultipleOrbitals.State),
    Num4 = (Num1 + 3)%Z ->
    let index := (code - Num1)%Z in
    let size := Z.of_nat (List.length MultipleOrbitals.orbitals) in
    let s' := MultipleOrbitals.handle_event Num1 Num4
                (MultipleOrbitals.KeyPressed code) s in
    (~ (0 <= index < size)%Z ->
       s' = s
       /\ MultipleOrbitals.current_orbital s' = MultipleOrbitals.current_orbital s
       /\ MultipleOrbitals.last_generation_time s'
          = MultipleOrbitals.last_generation_time s)
    /\ ((0 <= index < size)%Z ->
       MultipleOrbitals.current_orbital s' = index).
Proof.
  intros Num1 Num4 code s HNum index size s'. subst index size s'. split.
  - intros Hout. rewrite handle_key_invalid by assumption. auto.
  - intros Hin. rewrite handle_key_valid by assumption. reflexivity.
Qed.

Lemma select_orbital_range_check_witness :
  MultipleOrbitals.handle_event 27 30 (MultipleOrbitals.KeyPressed 31)
    MultipleOrbitals.initial_state = MultipleOrbitals.initial_state
  /\ MultipleOrbitals.current_orbital
       (MultipleOrbitals.handle_event 27 30 (MultipleOrbitals.KeyPressed 29)
          MultipleOrbitals.initial_state) = 2%Z.
Proof.
  split.
  - apply (proj1 (select_orbital_range_check 27 30 31
                    MultipleOrbitals.initial_state eq_refl)).
    simpl. lia.
  - apply (proj2 (select_orbital_range_check 27 30 29
                    MultipleOrbitals.initial_state eq_refl)).
    simpl. lia.
Defined.

(** C4.  From every state, a key press selecting a valid orbital index sets
    the last-generation timestamp to -100, so that at every clock reading
    [now >= 0] the regeneration test of the next pass succeeds: the pass
    invokes the point generator for the newly selected orbital at [now],
    and stores its result together with [now], however recent the previous
    regeneration was. *)
Theorem switch_forces_regeneration :
  forall (Num1 Num4 code : Z) (s : MultipleOrbitals.State) (now : R)
         (gen : nat -> Draw) (fuel : nat),
    Num4 = (Num1 + 3)%Z ->
    (0 <= code - Num1 < Z.of_nat (List.length MultipleOrbitals.orbitals))%Z ->
    0 <= now ->
    let s' := MultipleOrbitals.handle_event Num1 Num4
                (MultipleOrbitals.KeyPressed code) s in
    MultipleOrbitals.current_orbital s' = (code - Num1)%Z
    /\ MultipleOrbitals.last_generation_time s' = -100.0
    /\ now - MultipleOrbitals.last_generation_time s' > 0.5
    /\ exists o : Orbital,
         MultipleOrbitals.orbital_at (code - Num1) = Some o
         /\ MultipleOrbitals.regenerate now gen fuel s'
            = option_map
                (fun pts =>
                   MultipleOrbitals.mkState (MultipleOrbitals.window_open s)
                     (code - Num1) pts (MultipleOrbitals.angle s) now)
                (MultipleOrbitals.generate_orbital_points o now gen fuel)
         /\ MultipleOrbitals.frame Num1 Num4
              [MultipleOrbitals.KeyPressed code] now gen fuel s
            = option_map
                (fun pts =>
                   MultipleOrbitals.mkState (MultipleOrbitals.window_open s)
                     (code - Num1) pts
                     (MultipleOrbitals.angle s + ROTATION_SPEED) now)
                (MultipleOrbitals.generate_orbital_points o now gen fuel).
Proof.
  intros Num1 Num4 code s now gen fuel HNum Hidx Hnow s'. subst s'.
  unfold MultipleOrbitals.frame, MultipleOrbitals.poll_events.
  cbn [fold_left]. cbv zeta.
  rewrite (handle_key_valid Num1 Num4 code s HNum Hidx).
  cbn [MultipleOrbitals.window_open MultipleOrbitals.current_orbital
       MultipleOrbitals.points MultipleOrbitals.angle
       MultipleOrbitals.last_generation_time].
  assert (Hgt : now - -100.0 > 0.5) by (unlit; lra).
  split; [reflexivity | split; [reflexivity | split; [exact Hgt|]]].
  destruct (orbital_at_valid _ Hidx) as (o & Ho & _).
  exists o. split; [exact Ho|].
  split; rewrite (regenerate_due _ now gen fuel o);
    try reflexivity; try exact Ho; exact Hgt.
Qed.

Lemma switch_forces_regeneration_witness :
  let s' := MultipleOrbitals.handle_event 27 30 (MultipleOrbitals.KeyPressed 28)
              (MultipleOrbitals.mkState true 0 [] 0 0) in
  MultipleOrbitals.current_orbital s' = 1%Z
  /\ 0 - MultipleOrbitals.last_generation_time s' > 0.5.
Proof.
  pose proof (switch_forces_regeneration 27 30 28
                (MultipleOrbitals.mkState true 0 [] 0 0) 0
                (fun _ => mkDraw 0 0 0 0) 0 eq_refl) as H.
  simpl in H. destruct H as (Hc & _ & Ht & _); [lia | lra |].
  split; [exact Hc | exact Ht].
Defined.




(** ** The throttle in single precision *)


Lemma powerRZ_2_neg (p : positive) :
  powerRZ 2 (Zneg p) = / IZR (2 ^ Zpos p).
Proof.
  cbn [powerRZ]. f_equal. rewrite pow_IZR, positive_nat_Z. reflexivity.
Qed.

(** Writes the value of a float constant as a quotient of integers. *)
Ltac float_value :=
  unfold Binary32.to_R, Binary32.tenth, Binary32.six_tenths,
    Binary32.half, Binary32.minus_hundred;
  cbn [SpecFloat.cond_Zopp Z.opp]; rewrite ?powerRZ_2_neg;
  repeat match goal with
         | |- context [IZR (2 ^ Zpos ?p)] =>
             let v := eval vm_compute in (2 ^ Zpos p)%Z in
             change (2 ^ Zpos p)%Z with v
         end.

(** The four float constants are well-formed binary32 numbers; [half] and
    [minus_hundred] are 0.5 and -100 exactly, [tenth] and [six_tenths] are
    within half a unit in the last place of 0.1 and 0.6. *)
Lemma float_literals :
  forallb (SpecFloat.valid_binary Binary32.prec Binary32.emax)
    [Binary32.half; Binary32.minus_hundred; Binary32.tenth;
     Binary32.six_tenths] = true
  /\ Binary32.to_R Binary32.half = 0.5
  /\ Binary32.to_R Binary32.minus_hundred = -100
  /\ Rabs (Binary32.to_R Binary32.tenth - 0.1) <= powerRZ 2 (-28)
  /\ Rabs (Binary32.to_R Binary32.six_tenths - 0.6) <= powerRZ 2 (-25).
Proof.
  split; [vm_compute; reflexivity|].
  float_value. repeat split; try apply Rabs_le; lra.
Qed.





(** * Further properties of the code *)

(** ** The acceptance loop as a function of the draws *)

Section AcceptanceLoopTrace.

Variable prob_at : R -> R -> R -> R.
Variable max_prob : R.

Local Abbreviation loop := (acceptance_loop prob_at max_prob).
Local Abbreviation count := (accepted_count prob_at max_prob).
Local Abbreviation accepted := (accepts prob_at max_prob).
Local Abbreviation acc_b := (accepted_b prob_at max_prob).

Lemma accepted_b_true (d : Draw) : accepted d -> acc_b d = true.
Proof.
  intros H. unfold accepted_b.
  destruct (accepts_dec prob_at max_prob d); [reflexivity | contradiction].
Qed.

Lemma accepted_b_false (d : Draw) : ~ accepted d -> acc_b d = false.
Proof.
  intros H. unfold accepted_b.
  destruct (accepts_dec prob_at max_prob d); [contradiction | reflexivity].
Qed.

(** A returning run consumed some [k] draws, stored the accepted ones among
    them in the order drawn, and, unless the vector was full from the start,
    stopped right after an accepted draw. *)
Lemma acceptance_loop_trace (gen : nat -> Draw) (fuel : nat) :
  forall (i : nat) (pts pts' : list Vector3f),
    loop gen fuel i pts = Some pts' ->
    exists k : nat,
      (k <= fuel)%nat
      /\ pts' = pts ++ map point_of_draw (filter acc_b (map gen (seq i k)))
      /\ ((k = 0%nat /\ (NUM_POINTS <= Z.of_nat (List.length pts))%Z)
          \/ ((1 <= k)%nat /\ (Z.of_nat (List.length pts) < NUM_POINTS)%Z
              /\ accepted (gen (i + k - 1)%nat))).
Proof.
  induction fuel as [|fuel IH]; intros i pts pts' Hrun; simpl in Hrun;
    destruct (Z.ltb_spec (Z.of_nat (List.length pts)) NUM_POINTS) as [Hlt|Hge];
    try discriminate.
  - injection Hrun as <-. exists 0%nat. simpl. rewrite app_nil_r.
    split; [lia | split; [reflexivity | left; split; [reflexivity | lia]]].
  - destruct (accepts_dec prob_at max_prob (gen i)) as [Hacc|Hrej].
    + apply IH in Hrun. destruct Hrun as (k & Hk & Hpts & Hlast).
      exists (S k). split; [lia|]. split.
      * simpl seq. simpl map. simpl filter.
        rewrite (accepted_b_true _ Hacc). simpl map.
        rewrite Hpts, <- app_assoc. reflexivity.
      * right. split; [lia | split; [exact Hlt|]].
        destruct Hlast as [[-> _] | (Hk1 & _ & Hl)].
        -- replace (i + 1 - 1)%nat with i by lia. exact Hacc.
        -- replace (i + S k - 1)%nat with (S i + k - 1)%nat by lia. exact Hl.
    + apply IH in Hrun. destruct Hrun as (k & Hk & Hpts & Hlast).
      exists (S k). split; [lia|]. split.
      * simpl seq. simpl map. simpl filter.
        rewrite (accepted_b_false _ Hrej). exact Hpts.
      * right. split; [lia | split; [exact Hlt|]].
        destruct Hlast as [[_ Hfull] | (Hk1 & _ & Hl)]; [lia|].
        replace (i + S k - 1)%nat with (S i + k - 1)%nat by lia. exact Hl.
  - injection Hrun as <-. exists 0%nat. simpl. rewrite app_nil_r.
    split; [lia | split; [reflexivity | left; split; [reflexivity | lia]]].
Qed.

(** More iterations allowed do not change what a returning run returns. *)
Lemma acceptance_loop_more_fuel (gen : nat -> Draw) (fuel extra : nat) :
  forall (i : nat) (pts pts' : list Vector3f),
    loop gen fuel i pts = Some pts' ->
    loop gen (fuel + extra) i pts = Some pts'.
Proof.
  induction fuel as [|fuel IH]; intros i pts pts' Hrun; simpl in Hrun.
  - destruct (Z.ltb_spec (Z.of_nat (List.length pts)) NUM_POINTS) as [Hlt|Hge];
      [discriminate|].
    injection Hrun as <-. destruct extra; simpl;
      destruct (Z.ltb_spec (Z.of_nat (List.length pts)) NUM_POINTS);
      try lia; reflexivity.
  - simpl.
    destruct (Z.of_nat (List.length pts) <? NUM_POINTS)%Z; [|exact Hrun].
    destruct (accepts_dec prob_at max_prob (gen i)); apply IH; exact Hrun.
Qed.

Lemma accepted_count_le (gen : nat -> Draw) (k : nat) :
  forall i : nat, (count gen i k <= k)%nat.
Proof.
  induction k as [|k IH]; intros i; simpl; [lia|].
  specialize (IH (S i)).
  destruct (accepts_dec prob_at max_prob (gen i)); lia.
Qed.

(** Fewer iterations than points asked for never suffice. *)
Lemma acceptance_loop_needs_fuel (gen : nat -> Draw) (fuel : nat) :
  (Z.of_nat fuel < NUM_POINTS)%Z -> loop gen fuel 0 [] = None.
Proof.
  intros Hfuel.
  apply (acceptance_loop_decides prob_at max_prob gen fuel 0 []).
  - simpl. pose proof NUM_POINTS_pos. lia.
  - pose proof (accepted_count_le gen fuel 0). simpl. lia.
Qed.

End AcceptanceLoopTrace.

(** ** The point generator, draw by draw *)

Lemma run_1s_constant_source :
  MultipleOrbitals.generate_orbital_points SingleOrbital.orbital 0
    (fun _ => mkDraw 0 0 0 0) (Z.to_nat NUM_POINTS)
  = Some (repeat (to_cartesian 0 0 0) (Z.to_nat NUM_POINTS)).
Proof.
  unfold MultipleOrbitals.generate_orbital_points.
  rewrite (acceptance_loop_const _ _ (mkDraw 0 0 0 0)).
  - reflexivity.
  - unfold accepts; simpl.
    pose proof (density_1s_origin 0) as Hne.
    pose proof (density_nonneg_multi SingleOrbital.orbital 0 0 0 0) as Hge.
    unfold MultipleOrbitals.max_prob. unlit. lra.
  - simpl List.length. rewrite Z2Nat.id; [lia | discriminate].
Qed.

(** X1.  The set a call returns is determined by the draws alone: it is the
    list of the converted accepted draws among the first [k] draws, in the
    order drawn, where the [k]-th draw is itself accepted (the loop stops at
    the draw that completes the set) and [k] is within the iterations run. *)
Theorem generated_points_are_accepted_draws :
  forall (o : Orbital) (t : R) (gen : nat -> Draw) (fuel : nat)
         (pts : list Vector3f),
    (MultipleOrbitals.generate_orbital_points o t gen fuel = Some pts ->
     let density r theta phi :=
       MultipleOrbitals.probability_density o r theta phi t in
     exists k : nat,
       (1 <= k <= fuel)%nat
       /\ accepts density MultipleOrbitals.max_prob (gen (k - 1)%nat)
       /\ pts = map point_of_draw
                  (filter (accepted_b density MultipleOrbitals.max_prob)
                     (map gen (seq 0 k))))
    /\ (SingleOrbital.generate_orbital_points o t gen fuel = Some pts ->
     let density r theta phi :=
       SingleOrbital.probability_density (n o) (l o) (m o) r theta phi t in
     exists k : nat,
       (1 <= k <= fuel)%nat
       /\ accepts density SingleOrbital.max_prob (gen (k - 1)%nat)
       /\ pts = map point_of_draw
                  (filter (accepted_b density SingleOrbital.max_prob)
                     (map gen (seq 0 k)))).
Proof.
  intros o t gen fuel pts. pose proof NUM_POINTS_pos as Hpos.
  split; intros Hrun density;
    apply acceptance_loop_trace in Hrun;
    destruct Hrun as (k & Hk & Hpts & [[_ Hfull] | (Hk1 & _ & Hlast)]);
    try (simpl in Hfull; lia);
    exists k; (split; [lia|]); split; try exact Hpts;
    replace (k - 1)%nat with (0 + k - 1)%nat by lia; exact Hlast.
Qed.

Lemma generated_points_are_accepted_draws_witness :
  exists k : nat,
    (1 <= k <= Z.to_nat NUM_POINTS)%nat
    /\ repeat (to_cartesian 0 0 0) (Z.to_nat NUM_POINTS)
       = map point_of_draw
           (filter
              (accepted_b
                 (fun r theta phi =>
                    MultipleOrbitals.probability_density SingleOrbital.orbital
                      r theta phi 0)
                 MultipleOrbitals.max_prob)
              (map (fun _ => mkDraw 0 0 0 0) (seq 0 k))).
Proof.
  destruct (proj1 (generated_points_are_accepted_draws SingleOrbital.orbital 0
                     (fun _ => mkDraw 0 0 0 0) (Z.to_nat NUM_POINTS) _)
              run_1s_constant_source) as (k & Hk & _ & Hpts).
  exists k. split; [exact Hk | exact Hpts].
Defined.

(** X2.  A call never returns within fewer than [NUM_POINTS] iterations, and
    a call that returns within some number of iterations returns the same
    set within any larger number: the result does not depend on how long
    the loop is allowed to run. *)
Theorem generate_orbital_points_iterations :
  forall (o : Orbital) (t : R) (gen : nat -> Draw) (fuel : nat),
    ((Z.of_nat fuel < NUM_POINTS)%Z ->
       MultipleOrbitals.generate_orbital_points o t gen fuel = None
       /\ SingleOrbital.generate_orbital_points o t gen fuel = None)
    /\ (forall (pts : list Vector3f) (extra : nat),
          MultipleOrbitals.generate_orbital_points o t gen fuel = Some pts ->
          MultipleOrbitals.generate_orbital_points o t gen (fuel + extra)
            = Some pts)
    /\ (forall (pts : list Vector3f) (extra : nat),
          SingleOrbital.generate_orbital_points o t gen fuel = Some pts ->
          SingleOrbital.generate_orbital_points o t gen (fuel + extra)
            = Some pts).
Proof.
  intros o t gen fuel. split; [|split].
  - intros Hfuel. split; apply acceptance_loop_needs_fuel; exact Hfuel.
  - intros pts extra. apply acceptance_loop_more_fuel.
  - intros pts extra. apply acceptance_loop_more_fuel.
Qed.

Lemma generate_orbital_points_iterations_witness :
  MultipleOrbitals.generate_orbital_points SingleOrbital.orbital 0
    (fun _ => mkDraw 0 0 0 0) (Z.to_nat 9999) = None
  /\ MultipleOrbitals.generate_orbital_points SingleOrbital.orbital 0
       (fun _ => mkDraw 0 0 0 0) (Z.to_nat NUM_POINTS + 5)
     = Some (repeat (to_cartesian 0 0 0) (Z.to_nat NUM_POINTS)).
Proof.
  split.
  - apply (proj1 (generate_orbital_points_iterations SingleOrbital.orbital 0
                    (fun _ => mkDraw 0 0 0 0) (Z.to_nat 9999))).
    unfold NUM_POINTS. rewrite Z2Nat.id; lia.
  - apply (proj1 (proj2 (generate_orbital_points_iterations
                    SingleOrbital.orbital 0 (fun _ => mkDraw 0 0 0 0)
                    (Z.to_nat NUM_POINTS)))).
    exact run_1s_constant_source.
Defined.

(** X3.  With draws in the distributions' ranges, every returned point comes
    from a draw at which the density is strictly positive: the generator
    never places a point where the density vanishes. *)
Theorem generated_points_have_positive_density :
  forall (o : Orbital) (t : R) (gen : nat -> Draw) (fuel : nat)
         (pts : list Vector3f),
    ((forall i, MultipleOrbitals.in_range (gen i)) ->
     MultipleOrbitals.generate_orbital_points o t gen fuel = Some pts ->
     Forall (fun p => exists i : nat,
                 p = point_of_draw (gen i)
                 /\ 0 < MultipleOrbitals.probability_density o
                          (d_r (gen i)) (d_theta (gen i)) (d_phi (gen i)) t)
       pts)
    /\ ((forall i, SingleOrbital.in_range (gen i)) ->
     SingleOrbital.generate_orbital_points o t gen fuel = Some pts ->
     Forall (fun p => exists i : nat,
                 p = point_of_draw (gen i)
                 /\ 0 < SingleOrbital.probability_density (n o) (l o) (m o)
                          (d_r (gen i)) (d_theta (gen i)) (d_phi (gen i)) t)
       pts).
Proof.
  intros o t gen fuel pts. split; intros Hgen Hrun.
  - revert Hrun. apply acceptance_loop_points; [|constructor].
    intros i Hacc. exists i. split; [reflexivity|].
    destruct (Hgen i) as (_ & _ & _ & Hu & _).
    unfold accepts, MultipleOrbitals.max_prob in Hacc. unlit. lra.
  - revert Hrun. apply acceptance_loop_points; [|constructor].
    intros i Hacc. exists i. split; [reflexivity|].
    destruct (Hgen i) as (_ & _ & _ & Hu & _).
    unfold accepts, SingleOrbital.max_prob in Hacc. unlit. lra.
Qed.

Lemma generated_points_have_positive_density_witness :
  Forall (fun p => exists i : nat,
              p = point_of_draw ((fun _ => mkDraw 0 0 0 0) i)
              /\ 0 < MultipleOrbitals.probability_density SingleOrbital.orbital
                       0 0 0 0)
    (repeat (to_cartesian 0 0 0) (Z.to_nat NUM_POINTS)).
Proof.
  exact (proj1 (generated_points_have_positive_density SingleOrbital.orbital 0
                  (fun _ => mkDraw 0 0 0 0) (Z.to_nat NUM_POINTS) _)
           (fun _ => proj1 in_range_origin) run_1s_constant_source).
Defined.

(** ** Shape of the density *)

Lemma exp_double (r : R) : exp (- r) * exp (- r) = exp (- (2 * r)).
Proof. rewrite <- exp_plus. f_equal. ring. Qed.

Lemma density_1s_multi (o : Orbital) (r theta phi t : R) :
  n o = 1%Z -> l o = 0%Z -> m o = 0%Z ->
  MultipleOrbitals.probability_density o r theta phi t
    = exp (- (2 * r)) / PI * (1 + 0.1 * sin (VIBRATION_FREQ * t)).
Proof.
  intros Hn Hl Hm. pose proof PI_bounds as HPI.
  unfold MultipleOrbitals.probability_density,
    MultipleOrbitals.real_spherical_harmonic. cbv zeta.
  rewrite Hn, Hl, Hm, radial_function_1. simpl.
  assert (Hs : sqrt (1.0 / PI) * sqrt (1.0 / PI) = 1.0 / PI).
  { apply sqrt_sqrt. apply Rlt_le, Rdiv_lt_0_compat; lra. }
  rewrite <- exp_double.
  replace (2 * exp (- r) * (0.5 * sqrt (1.0 / PI))
           * (2 * exp (- r) * (0.5 * sqrt (1.0 / PI))))
    with (exp (- r) * exp (- r)
          * (sqrt (1.0 / PI) * sqrt (1.0 / PI))) by (unlit; field).
  rewrite Hs. unlit. field. lra.
Qed.

Lemma density_1s_single (r theta phi t : R) :
  SingleOrbital.probability_density 1 0 0 r theta phi t
    = exp (- (2 * r)) / PI * (1 + 0.1 * sin (VIBRATION_FREQ * t)).
Proof.
  rewrite <- (density_1s_multi SingleOrbital.orbital r theta phi t)
    by reflexivity.
  reflexivity.
Qed.

(** X5.  For the 1s state [(n, l, m) = (1, 0, 0)] both programs' density is
    [exp (-2 r) / PI * (1 + 0.1 * sin (omega * t))]: it does not depend on
    the angles, and at a fixed time it decreases as the radius grows, so it
    is largest at the origin. *)
Theorem density_1s_closed_form :
  forall (o : Orbital) (r theta phi t : R),
    n o = 1%Z -> l o = 0%Z -> m o = 0%Z ->
    MultipleOrbitals.probability_density o r theta phi t
      = exp (- (2 * r)) / PI * (1 + 0.1 * sin (VIBRATION_FREQ * t))
    /\ SingleOrbital.probability_density (n o) (l o) (m o) r theta phi t
      = exp (- (2 * r)) / PI * (1 + 0.1 * sin (VIBRATION_FREQ * t))
    /\ (forall r' theta' phi' : R,
          r <= r' ->
          MultipleOrbitals.probability_density o r' theta' phi' t
            <= MultipleOrbitals.probability_density o r theta phi t).
Proof.
  intros o r theta phi t Hn Hl Hm. pose proof PI_bounds as HPI.
  split; [now apply density_1s_multi|].
  split; [rewrite Hn, Hl, Hm; apply density_1s_single|].
  intros r' theta' phi' Hr.
  rewrite !density_1s_multi by assumption.
  pose proof (vibration_bounds VIBRATION_FREQ t) as Hv.
  assert (He : exp (- (2 * r')) <= exp (- (2 * r))).
  { destruct (Req_dec r r') as [-> | Hne]; [lra|].
    apply Rlt_le, exp_increasing. lra. }
  apply Rmult_le_compat_r; [unlit; lra|].
  apply Rmult_le_compat_r; [apply Rlt_le, Rinv_0_lt_compat; lra | exact He].
Qed.

Lemma density_1s_closed_form_witness :
  MultipleOrbitals.probability_density SingleOrbital.orbital 1 0 0 0
    = exp (- (2 * 1)) / PI * (1 + 0.1 * sin (VIBRATION_FREQ * 0)).
Proof.
  exact (proj1 (density_1s_closed_form SingleOrbital.orbital 1 0 0 0
                  eq_refl eq_refl eq_refl)).
Defined.

(** X6.  On the sampling domain [0 <= r <= 8] the radial amplitude for
    [n = 1] is positive and the one for [n = 2] vanishes exactly at [r = 2]
    (two Bohr radii), so every [n = 2] orbital has zero density on the
    sphere [r = 2], at every time, in both programs. *)
Theorem radial_node_of_n2 :
  forall (o : Orbital) (r theta phi t : R),
    0 <= r <= 8 ->
    0 < radial_function 1 r
    /\ (radial_function 2 r = 0 <-> r = 2)
    /\ (n o = 2%Z ->
        MultipleOrbitals.probability_density o 2 theta phi t = 0
        /\ SingleOrbital.probability_density (n o) (l o) (m o) 2 theta phi t = 0).
Proof.
  intros o r theta phi t _.
  assert (Hc : 0 < 1 / (2 * sqrt 2)).
  { assert (0 < sqrt 2) by (apply sqrt_lt_R0; lra).
    apply Rdiv_lt_0_compat; lra. }
  split; [|split].
  - rewrite radial_function_1. pose proof (exp_pos (- r)). lra.
  - rewrite radial_function_2. pose proof (exp_pos (- r / 2)) as He. split.
    + intros H0.
      apply Rmult_integral in H0. destruct H0 as [H0 | H0]; [|lra].
      apply Rmult_integral in H0. destruct H0 as [H0 | H0]; lra.
    + intros ->. replace (1 - 2 / 2) with 0 by lra. ring.
  - intros Hn.
    assert (H2 : radial_function 2 2 = 0).
    { rewrite radial_function_2. replace (1 - 2 / 2) with 0 by lra. ring. }
    unfold MultipleOrbitals.probability_density,
      SingleOrbital.probability_density. cbv zeta.
    rewrite Hn, H2. split; ring.
Qed.

Lemma radial_node_of_n2_witness :
  MultipleOrbitals.probability_density
    (mkOrbital 2 1 0 2.0 "2pz" (mkVector3f 1.0 1.0 0.0)) 2 0 0 0 = 0.
Proof.
  refine (proj1 (proj2 (proj2 (radial_node_of_n2
            (mkOrbital 2 1 0 2.0 "2pz" (mkVector3f 1.0 1.0 0.0)) 0 0 0 0 _))
            eq_refl)).
  lra.
Defined.

(** X7.  The orbital with [m = -1] is the orbital with [m = 1] turned by a
    quarter turn about the z axis: in both programs the density of
    [(n, 1, -1)] at azimuth [phi] is the density of [(n, 1, 1)] at azimuth
    [phi - pi/2] ([pi] the mathematical constant). *)
Theorem p_orbitals_quarter_turn :
  forall (ox oy : Orbital) (r theta phi t : R),
    n ox = n oy -> l ox = 1%Z -> m ox = 1%Z -> l oy = 1%Z -> m oy = (-1)%Z ->
    MultipleOrbitals.probability_density oy r theta phi t
      = MultipleOrbitals.probability_density ox r theta
          (phi - Rtrigo1.PI / 2) t
    /\ SingleOrbital.probability_density (n oy) (l oy) (m oy) r theta phi t
      = SingleOrbital.probability_density (n ox) (l ox) (m ox) r theta
          (phi - Rtrigo1.PI / 2) t.
Proof.
  intros ox oy r theta phi t Hn Hlx Hmx Hly Hmy.
  assert (Hc : cos (phi - Rtrigo1.PI / 2) = sin phi).
  { rewrite cos_minus, cos_PI2, sin_PI2. ring. }
  unfold MultipleOrbitals.probability_density,
    SingleOrbital.probability_density,
    MultipleOrbitals.real_spherical_harmonic,
    SingleOrbital.spherical_harmonic. cbv zeta.
  rewrite Hn, Hlx, Hmx, Hly, Hmy, Hc. simpl. split; ring.
Qed.

Lemma p_orbitals_quarter_turn_witness :
  MultipleOrbitals.probability_density (with_lm 1 (-1)) 1 1 1 0
    = MultipleOrbitals.probability_density (with_lm 1 1) 1 1
        (1 - Rtrigo1.PI / 2) 0.
Proof.
  exact (proj1 (p_orbitals_quarter_turn (with_lm 1 1) (with_lm 1 (-1))
                  1 1 1 0 eq_refl eq_refl eq_refl eq_refl eq_refl)).
Defined.

(** X8.  In [Multiple Orbitals.cpp] the three p amplitudes follow the
    Cartesian axes of the point the sampler would store: with
    [c = sqrt (3 / (4 PI))] and [(x, y, z)] the conversion of
    [(r, theta, phi)], [r] times the amplitude is [- c x] for [m = 1],
    [- c y] for [m = -1] and [c z] for [m = 0]: the orbitals named 2px,
    2py, 2pz are the ones directed along x, y and z. *)
Theorem p_amplitudes_follow_axes :
  forall (o : Orbital) (r theta phi : R),
    l o = 1%Z ->
    let c := sqrt (3.0 / (4.0 * PI)) in
    let p := to_cartesian r theta phi in
    let Y := MultipleOrbitals.real_spherical_harmonic o theta phi in
    (m o = 1%Z -> r * Y = - c * x p)
    /\ (m o = (-1)%Z -> r * Y = - c * y p)
    /\ (m o = 0%Z -> r * Y = c * z p).
Proof.
  intros o r theta phi Hl c p Y. subst Y p c.
  unfold MultipleOrbitals.real_spherical_harmonic, to_cartesian. cbv zeta.
  rewrite Hl. repeat split; intros ->; simpl; ring.
Qed.

Lemma p_amplitudes_follow_axes_witness :
  1 * MultipleOrbitals.real_spherical_harmonic (with_lm 1 1) 1 0
    = - sqrt (3.0 / (4.0 * PI)) * x (to_cartesian 1 1 0).
Proof.
  exact (proj1 (p_amplitudes_follow_axes (with_lm 1 1) 1 1 0 eq_refl) eq_refl).
Defined.

(** ** The frame loop of [Multiple Orbitals.cpp] *)

Section MainFacts.

Variables Num1 Num4 : Z.

Local Abbreviation handle := (MultipleOrbitals.handle_event Num1 Num4).
Local Abbreviation poll := (MultipleOrbitals.poll_events Num1 Num4).
Local Abbreviation pass := (MultipleOrbitals.frame Num1 Num4).
Local Abbreviation run := (MultipleOrbitals.main_loop Num1 Num4).

Lemma handle_event_cases (e : MultipleOrbitals.Event)
    (s : MultipleOrbitals.State) :
  handle e s = s
  \/ (e = MultipleOrbitals.Closed
      /\ handle e s
         = MultipleOrbitals.mkState false (MultipleOrbitals.current_orbital s)
             (MultipleOrbitals.points s) (MultipleOrbitals.angle s)
             (MultipleOrbitals.last_generation_time s))
  \/ (exists code : Z,
        e = MultipleOrbitals.KeyPressed code
        /\ (Num1 <= code <= Num4)%Z
        /\ (MultipleOrbitals.to_size_t (code - Num1) < 4)%Z
        /\ handle e s
           = MultipleOrbitals.mkState (MultipleOrbitals.window_open s)
               (code - Num1) (MultipleOrbitals.points s)
               (MultipleOrbitals.angle s) (-100.0)).
Proof.
  destruct e as [|code|]; simpl.
  - right; left. split; reflexivity.
  - destruct (Z.geb_spec code Num1) as [Hge|]; [|left; reflexivity].
    destruct (Z.leb_spec code Num4) as [Hle|]; [|left; reflexivity].
    simpl.
    destruct (Z.ltb_spec (MultipleOrbitals.to_size_t (code - Num1)) 4)
      as [Hlt|]; [|left; reflexivity].
    right; right. exists code. repeat split; try assumption; lia.
  - left; reflexivity.
Qed.

Lemma poll_events_app (evs evs' : list MultipleOrbitals.Event)
    (s : MultipleOrbitals.State) :
  poll (evs ++ evs') s = poll evs' (poll evs s).
Proof. unfold MultipleOrbitals.poll_events. apply fold_left_app. Qed.

(** An invariant of single events is an invariant of the polling loop. *)
Lemma poll_events_invariant (I : MultipleOrbitals.State -> Prop) :
  (forall e s, I s -> I (handle e s)) ->
  forall evs s, I s -> I (poll evs s).
Proof.
  intros Hstep evs. unfold MultipleOrbitals.poll_events.
  induction evs as [|e evs IH]; intros s Hs; simpl; [exact Hs|].
  apply IH, Hstep, Hs.
Qed.

Lemma poll_events_display (evs : list MultipleOrbitals.Event)
    (s : MultipleOrbitals.State) :
  MultipleOrbitals.points (poll evs s) = MultipleOrbitals.points s
  /\ MultipleOrbitals.angle (poll evs s) = MultipleOrbitals.angle s.
Proof.
  apply (poll_events_invariant
           (fun s' => MultipleOrbitals.points s' = MultipleOrbitals.points s
                      /\ MultipleOrbitals.angle s' = MultipleOrbitals.angle s));
    [|split; reflexivity].
  intros e s' [Hp Ha].
  destruct (handle_event_cases e s') as [-> | [[_ ->] | (c & _ & _ & _ & ->)]];
    simpl; split; assumption.
Qed.

Lemma poll_events_window (evs : list MultipleOrbitals.Event) :
  forall s : MultipleOrbitals.State,
    MultipleOrbitals.window_open (poll evs s) = true
    <-> MultipleOrbitals.window_open s = true
        /\ ~ In MultipleOrbitals.Closed evs.
Proof.
  unfold MultipleOrbitals.poll_events.
  induction evs as [|e evs IH]; intros s; simpl.
  - tauto.
  - rewrite IH.
    destruct (handle_event_cases e s) as [E | [[-> E] | (c & -> & _ & _ & E)]].
    + rewrite E. destruct e as [|c|]; simpl in *.
      * unfold MultipleOrbitals.handle_event in E.
        assert (MultipleOrbitals.window_open s = false) by (rewrite <- E; reflexivity).
        split; [intros [H1 _]; congruence | intros [H1 H2]; tauto].
      * split; [intros [H1 H2]; split; [exact H1|];
                intros [H3|H3]; [discriminate | tauto]
               | intros [H1 H2]; tauto].
      * split; [intros [H1 H2]; split; [exact H1|];
                intros [H3|H3]; [discriminate | tauto]
               | intros [H1 H2]; tauto].
    + rewrite E. simpl. split; [intros [H1 _]; discriminate | tauto].
    + rewrite E. simpl.
      split; [intros [H1 H2]; split; [exact H1|];
              intros [H3|H3]; [discriminate | tauto]
             | intros [H1 H2]; tauto].
Qed.

Lemma poll_events_in_catalogue (evs : list MultipleOrbitals.Event)
    (s : MultipleOrbitals.State) :
  (Num4 - Num1 < 2 ^ 64)%Z -> in_catalogue s -> in_catalogue (poll evs s).
Proof.
  intros HNum. apply poll_events_invariant. clear s. intros e s Hs.
  destruct (handle_event_cases e s) as [-> | [[_ ->] | (c & _ & Hc & Hlt & ->)]];
    try exact Hs.
  unfold in_catalogue, MultipleOrbitals.to_size_t in *. simpl in *.
  rewrite Z.mod_small in Hlt by lia. lia.
Qed.

Lemma poll_events_timestamp (evs : list MultipleOrbitals.Event)
    (s : MultipleOrbitals.State) :
  MultipleOrbitals.last_generation_time (poll evs s)
    = MultipleOrbitals.last_generation_time s
  \/ MultipleOrbitals.last_generation_time (poll evs s) = -100.0.
Proof.
  apply (poll_events_invariant
           (fun s' => MultipleOrbitals.last_generation_time s'
                        = MultipleOrbitals.last_generation_time s
                      \/ MultipleOrbitals.last_generation_time s' = -100.0));
    [|left; reflexivity].
  intros e s' Hs'.
  destruct (handle_event_cases e s') as [-> | [[_ ->] | (c & _ & _ & _ & ->)]];
    simpl; auto.
Qed.

Lemma regenerate_cases (time : R) (gen : nat -> Draw) (fuel : nat)
    (s s' : MultipleOrbitals.State) :
  MultipleOrbitals.regenerate time gen fuel s = Some s' ->
  (time - MultipleOrbitals.last_generation_time s <= 0.5 /\ s' = s)
  \/ (time - MultipleOrbitals.last_generation_time s > 0.5
      /\ exists (o : Orbital) (pts : list Vector3f),
           MultipleOrbitals.orbital_at (MultipleOrbitals.current_orbital s)
             = Some o
           /\ MultipleOrbitals.generate_orbital_points o time gen fuel
              = Some pts
           /\ s' = MultipleOrbitals.mkState (MultipleOrbitals.window_open s)
                     (MultipleOrbitals.current_orbital s) pts
                     (MultipleOrbitals.angle s) time).
Proof.
  unfold MultipleOrbitals.regenerate. intros H.
  destruct (Rgt_dec (time - MultipleOrbitals.last_generation_time s) 0.5)
    as [Hgt|Hle].
  - right. split; [exact Hgt|].
    destruct (MultipleOrbitals.orbital_at (MultipleOrbitals.current_orbital s))
      as [o|]; [|discriminate].
    destruct (MultipleOrbitals.generate_orbital_points o time gen fuel)
      as [pts|] eqn:E; [|discriminate].
    injection H as <-. exists o, pts. repeat split. exact E.
  - left. injection H as <-. split; [lra | reflexivity].
Qed.

(** An invariant of single passes is an invariant of the frame loop. *)
Lemma main_loop_invariant (I : MultipleOrbitals.State -> Prop)
    (passes : list MultipleOrbitals.Pass) :
  (forall p s s', In p passes -> I s ->
     pass (MultipleOrbitals.pass_events p) (MultipleOrbitals.pass_time p)
       (MultipleOrbitals.pass_gen p) (MultipleOrbitals.pass_fuel p) s = Some s' ->
     I s') ->
  forall s s', I s -> run passes s = Some s' -> I s'.
Proof.
  induction passes as [|p passes IH]; intros Hstep s s' Hs Hrun; simpl in Hrun.
  - injection Hrun as <-. exact Hs.
  - destruct (MultipleOrbitals.window_open s);
      [|injection Hrun as <-; exact Hs].
    destruct (pass _ _ _ _ s) as [s1|] eqn:E; [|discriminate].
    apply (IH (fun p0 s0 s0' Hin => Hstep p0 s0 s0' (or_intror Hin)) s1 s');
      [|exact Hrun].
    apply (Hstep p s s1); [left; reflexivity | exact Hs | exact E].
Qed.

End MainFacts.

Lemma frame_unfold (Num1 Num4 : Z) (evs : list MultipleOrbitals.Event)
    (time : R) (gen : nat -> Draw) (fuel : nat) (s : MultipleOrbitals.State) :
  MultipleOrbitals.frame Num1 Num4 evs time gen fuel s
  = MultipleOrbitals.regenerate time gen fuel
      (MultipleOrbitals.mkState
         (MultipleOrbitals.window_open (MultipleOrbitals.poll_events Num1 Num4 evs s))
         (MultipleOrbitals.current_orbital (MultipleOrbitals.poll_events Num1 Num4 evs s))
         (MultipleOrbitals.points (MultipleOrbitals.poll_events Num1 Num4 evs s))
         (MultipleOrbitals.angle (MultipleOrbitals.poll_events Num1 Num4 evs s)
          + ROTATION_SPEED)
         (MultipleOrbitals.last_generation_time
            (MultipleOrbitals.poll_events Num1 Num4 evs s))).
Proof. reflexivity. Qed.

(** A pass during which no regeneration is due. *)
Lemma frame_quiet (Num1 Num4 : Z) (evs : list MultipleOrbitals.Event)
    (time : R) (gen : nat -> Draw) (fuel : nat) (s : MultipleOrbitals.State) :
  let s1 := MultipleOrbitals.poll_events Num1 Num4 evs s in
  time - MultipleOrbitals.last_generation_time s1 <= 0.5 ->
  MultipleOrbitals.frame Num1 Num4 evs time gen fuel s
  = Some (MultipleOrbitals.mkState (MultipleOrbitals.window_open s1)
            (MultipleOrbitals.current_orbital s1) (MultipleOrbitals.points s1)
            (MultipleOrbitals.angle s1 + ROTATION_SPEED)
            (MultipleOrbitals.last_generation_time s1)).
Proof.
  intros s1 Hle. rewrite frame_unfold. fold s1.
  unfold MultipleOrbitals.regenerate. simpl.
  destruct (Rgt_dec (time - MultipleOrbitals.last_generation_time s1) 0.5);
    [lra | reflexivity].
Qed.

Lemma single_regenerate_cases (time : R) (gen : nat -> Draw) (fuel : nat)
    (s s' : SingleOrbital.State) :
  SingleOrbital.regenerate time gen fuel s = Some s' ->
  (time - SingleOrbital.last_generation_time s <= 0.5 /\ s' = s)
  \/ (time - SingleOrbital.last_generation_time s > 0.5
      /\ exists pts : list Vector3f,
           SingleOrbital.generate_orbital_points SingleOrbital.orbital
             time gen fuel = Some pts
           /\ s' = SingleOrbital.mkState (SingleOrbital.window_open s) pts
                     (SingleOrbital.angle s) time).
Proof.
  unfold SingleOrbital.regenerate. intros H.
  destruct (Rgt_dec (time - SingleOrbital.last_generation_time s) 0.5)
    as [Hgt|Hle].
  - right. split; [exact Hgt|].
    destruct (SingleOrbital.generate_orbital_points SingleOrbital.orbital
                time gen fuel) as [pts|] eqn:E; [|discriminate].
    injection H as <-. exists pts. split; reflexivity.
  - left. injection H as <-. split; [lra | reflexivity].
Qed.

Lemma single_poll_events_display (evs : list SingleOrbital.Event) :
  forall s : SingleOrbital.State,
    SingleOrbital.points (SingleOrbital.poll_events evs s)
      = SingleOrbital.points s
    /\ SingleOrbital.angle (SingleOrbital.poll_events evs s)
       = SingleOrbital.angle s
    /\ SingleOrbital.last_generation_time (SingleOrbital.poll_events evs s)
       = SingleOrbital.last_generation_time s.
Proof.
  unfold SingleOrbital.poll_events.
  induction evs as [|e evs IH]; intros s; simpl; [auto|].
  destruct (IH (SingleOrbital.handle_event e s)) as (Hp & Ha & Hl).
  rewrite Hp, Ha, Hl. destruct e; simpl; auto.
Qed.

(** Two concrete passes, used to instantiate the statements below. *)
Lemma quiet_pass_example (gen : nat -> Draw) (fuel : nat) :
  MultipleOrbitals.frame 27 30 [MultipleOrbitals.KeyPressed 31] 0.25 gen fuel
    (MultipleOrbitals.mkState true 0 [] 0 0)
  = Some (MultipleOrbitals.mkState true 0 [] (0 + ROTATION_SPEED) 0).
Proof.
  rewrite frame_quiet; simpl; [reflexivity | lra].
Qed.

Lemma first_pass_example :
  MultipleOrbitals.frame 27 30 [] 0 (fun _ => mkDraw 0 0 0 0)
    (Z.to_nat NUM_POINTS) MultipleOrbitals.initial_state
  = Some (MultipleOrbitals.mkState true 0
            (repeat (to_cartesian 0 0 0) (Z.to_nat NUM_POINTS))
            (0.0 + ROTATION_SPEED) 0).
Proof.
  rewrite frame_unfold.
  unfold MultipleOrbitals.poll_events, MultipleOrbitals.initial_state.
  cbn [fold_left MultipleOrbitals.window_open MultipleOrbitals.current_orbital
       MultipleOrbitals.points MultipleOrbitals.angle
       MultipleOrbitals.last_generation_time].
  rewrite (regenerate_due _ 0 _ _ SingleOrbital.orbital).
  - rewrite run_1s_constant_source. reflexivity.
  - cbn [MultipleOrbitals.last_generation_time]. unlit. lra.
  - reflexivity.
Qed.



Lemma single_poll_events_window (evs : list SingleOrbital.Event) :
  forall s : SingleOrbital.State,
    SingleOrbital.window_open (SingleOrbital.poll_events evs s) = true
    <-> SingleOrbital.window_open s = true /\ ~ In SingleOrbital.Closed evs.
Proof.
  unfold SingleOrbital.poll_events.
  induction evs as [|e evs IH]; intros s; simpl; [tauto|].
  rewrite IH. destruct e; simpl.
  - split; [intros [H _]; discriminate | intros [_ H]; tauto].
  - split; [intros [H1 H2]; split; [exact H1|];
            intros [H3|H3]; [discriminate | tauto]
           | intros [H1 H2]; tauto].
Qed.

(** X10.  In both programs polling events never changes the displayed
    points or the camera angle, and the window is open afterwards exactly
    when it was open before and no close request is among the events: a
    close request is never undone by a later event of the same pass.  In
    the single-orbital program events also leave the last-generation
    timestamp alone. *)
Theorem events_never_touch_the_display :
  forall (Num1 Num4 : Z) (evs : list MultipleOrbitals.Event)
         (s : MultipleOrbitals.State) (evs1 : list SingleOrbital.Event)
         (s1 : SingleOrbital.State),
    MultipleOrbitals.points (MultipleOrbitals.poll_events Num1 Num4 evs s)
      = MultipleOrbitals.points s
    /\ MultipleOrbitals.angle (MultipleOrbitals.poll_events Num1 Num4 evs s)
       = MultipleOrbitals.angle s
    /\ (MultipleOrbitals.window_open
          (MultipleOrbitals.poll_events Num1 Num4 evs s) = true
        <-> MultipleOrbitals.window_open s = true
            /\ ~ In MultipleOrbitals.Closed evs)
    /\ SingleOrbital.points (SingleOrbital.poll_events evs1 s1)
       = SingleOrbital.points s1
    /\ SingleOrbital.angle (SingleOrbital.poll_events evs1 s1)
       = SingleOrbital.angle s1
    /\ SingleOrbital.last_generation_time (SingleOrbital.poll_events evs1 s1)
       = SingleOrbital.last_generation_time s1
    /\ (SingleOrbital.window_open (SingleOrbital.poll_events evs1 s1) = true
        <-> SingleOrbital.window_open s1 = true
            /\ ~ In SingleOrbital.Closed evs1).
Proof.
  intros Num1 Num4 evs s evs1 s1.
  destruct (poll_events_display Num1 Num4 evs s) as [Hp Ha].
  destruct (single_poll_events_display evs1 s1) as (Hp1 & Ha1 & Hl1).
  split; [exact Hp | split; [exact Ha | split; [apply poll_events_window|]]].
  split; [exact Hp1 | split; [exact Ha1 | split; [exact Hl1|]]].
  apply single_poll_events_window.
Qed.

Lemma handle_event_no_selection (Num1 Num4 : Z) (e : MultipleOrbitals.Event)
    (s : MultipleOrbitals.State) :
  Num4 = (Num1 + 3)%Z -> ~ selects Num1 e ->
  MultipleOrbitals.current_orbital (MultipleOrbitals.handle_event Num1 Num4 e s)
    = MultipleOrbitals.current_orbital s
  /\ MultipleOrbitals.last_generation_time
       (MultipleOrbitals.handle_event Num1 Num4 e s)
     = MultipleOrbitals.last_generation_time s.
Proof.
  intros HNum Hsel. destruct e as [|code|]; simpl selects in Hsel.
  - split; reflexivity.
  - rewrite handle_key_invalid by assumption. split; reflexivity.
  - split; reflexivity.
Qed.

Lemma poll_events_no_selection (Num1 Num4 : Z)
    (evs : list MultipleOrbitals.Event) :
  Num4 = (Num1 + 3)%Z ->
  (forall e, In e evs -> ~ selects Num1 e) ->
  forall s : MultipleOrbitals.State,
    MultipleOrbitals.current_orbital (MultipleOrbitals.poll_events Num1 Num4 evs s)
      = MultipleOrbitals.current_orbital s
    /\ MultipleOrbitals.last_generation_time
         (MultipleOrbitals.poll_events Num1 Num4 evs s)
       = MultipleOrbitals.last_generation_time s.
Proof.
  intros HNum. unfold MultipleOrbitals.poll_events.
  induction evs as [|e evs IH]; intros Hno s; simpl; [auto|].
  destruct (IH (fun e' H => Hno e' (or_intror H))
              (MultipleOrbitals.handle_event Num1 Num4 e s)) as [Hc Hl].
  destruct (handle_event_no_selection Num1 Num4 e s HNum
              (Hno e (or_introl eq_refl))) as [Hc' Hl'].
  split; congruence.
Qed.

(** X11.  Among the key presses of one pass the last valid selection wins:
    events that select no catalogue orbital (other keys, close requests,
    other events) change neither the current orbital nor the timestamp, and
    after a valid selection followed only by such events the current orbital
    is the selected index and the timestamp is the sentinel -100.
    [Num1 .. Num4] are four consecutive key codes. *)
Theorem last_selection_wins :
  forall (Num1 Num4 code : Z) (evs evs' : list MultipleOrbitals.Event)
         (s : MultipleOrbitals.State),
    Num4 = (Num1 + 3)%Z ->
    ((forall e, In e evs -> ~ selects Num1 e) ->
       MultipleOrbitals.current_orbital
         (MultipleOrbitals.poll_events Num1 Num4 evs s)
         = MultipleOrbitals.current_orbital s
       /\ MultipleOrbitals.last_generation_time
            (MultipleOrbitals.poll_events Num1 Num4 evs s)
          = MultipleOrbitals.last_generation_time s)
    /\ (selects Num1 (MultipleOrbitals.KeyPressed code) ->
        (forall e, In e evs' -> ~ selects Num1 e) ->
        MultipleOrbitals.current_orbital
          (MultipleOrbitals.poll_events Num1 Num4
             (evs ++ MultipleOrbitals.KeyPressed code :: evs') s)
          = (code - Num1)%Z
        /\ MultipleOrbitals.last_generation_time
             (MultipleOrbitals.poll_events Num1 Num4
                (evs ++ MultipleOrbitals.KeyPressed code :: evs') s)
           = -100.0).
Proof.
  intros Num1 Num4 code evs evs' s HNum. split.
  - intros Hno. now apply poll_events_no_selection.
  - intros Hsel Hno.
    rewrite poll_events_app.
    change (MultipleOrbitals.poll_events Num1 Num4
              (MultipleOrbitals.KeyPressed code :: evs')
              (MultipleOrbitals.poll_events Num1 Num4 evs s))
      with (MultipleOrbitals.poll_events Num1 Num4 evs'
              (MultipleOrbitals.handle_event Num1 Num4
                 (MultipleOrbitals.KeyPressed code)
                 (MultipleOrbitals.poll_events Num1 Num4 evs s))).
    destruct (poll_events_no_selection Num1 Num4 evs' HNum Hno
                (MultipleOrbitals.handle_event Num1 Num4
                   (MultipleOrbitals.KeyPressed code)
                   (MultipleOrbitals.poll_events Num1 Num4 evs s)))
      as [Hc Hl].
    rewrite Hc, Hl, handle_key_valid by assumption. split; reflexivity.
Qed.

Lemma last_selection_wins_witness :
  MultipleOrbitals.current_orbital
    (MultipleOrbitals.poll_events 27 30
       ([MultipleOrbitals.KeyPressed 28]
        ++ MultipleOrbitals.KeyPressed 30
           :: [MultipleOrbitals.KeyPressed 45; MultipleOrbitals.OtherEvent])
       MultipleOrbitals.initial_state)
  = 3%Z.
Proof.
  apply (proj2 (last_selection_wins 27 30 30 [MultipleOrbitals.KeyPressed 28]
                  [MultipleOrbitals.KeyPressed 45; MultipleOrbitals.OtherEvent]
                  MultipleOrbitals.initial_state eq_refl)).
  - simpl. lia.
  - intros e [<- | [<- | []]]; simpl; [lia | tauto].
Defined.

(** X12.  The index test of the key handler keeps the current orbital inside
    the catalogue: from a state whose index is valid, every state the frame
    loop reaches has a valid index, so [orbitals[current_orbital]] is always
    an orbital of the catalogue.  This needs only that the key codes
    [Num1 .. Num4] span fewer than [2^64] values, not that they are
    consecutive. *)
Theorem current_orbital_stays_in_catalogue :
  forall (Num1 Num4 : Z) (passes : list MultipleOrbitals.Pass)
         (s s' : MultipleOrbitals.State),
    (Num4 - Num1 < 2 ^ 64)%Z ->
    in_catalogue s ->
    MultipleOrbitals.main_loop Num1 Num4 passes s = Some s' ->
    in_catalogue s'
    /\ exists o : Orbital,
         MultipleOrbitals.orbital_at (MultipleOrbitals.current_orbital s')
           = Some o
         /\ In o MultipleOrbitals.orbitals.
Proof.
  intros Num1 Num4 passes s s' HNum Hs Hrun.
  assert (Hs' : in_catalogue s').
  { revert Hs Hrun. apply main_loop_invariant.
    intros p s0 s0' _ H0 Hpass.
    rewrite frame_unfold in Hpass.
    pose proof (poll_events_in_catalogue Num1 Num4
                  (MultipleOrbitals.pass_events p) s0 HNum H0) as H1.
    apply regenerate_cases in Hpass.
    destruct Hpass as [[_ ->] | (_ & o & pts & _ & _ & ->)]; exact H1. }
  split; [exact Hs'|]. apply orbital_at_valid. exact Hs'.
Qed.

Lemma current_orbital_stays_in_catalogue_witness :
  in_catalogue (MultipleOrbitals.mkState true 0 [] (0 + ROTATION_SPEED) 0).
Proof.
  apply (current_orbital_stays_in_catalogue 27 30
           [MultipleOrbitals.mkPass [MultipleOrbitals.KeyPressed 31] 0.25
              (fun _ => mkDraw 0 0 0 0) 0]
           (MultipleOrbitals.mkState true 0 [] 0 0)).
  - reflexivity.
  - unfold in_catalogue. simpl. lia.
  - cbn [MultipleOrbitals.main_loop MultipleOrbitals.window_open
         MultipleOrbitals.pass_events MultipleOrbitals.pass_time
         MultipleOrbitals.pass_gen MultipleOrbitals.pass_fuel].
    rewrite quiet_pass_example. reflexivity.
Defined.

Lemma frame_window (Num1 Num4 : Z) (evs : list MultipleOrbitals.Event)
    (time : R) (gen : nat -> Draw) (fuel : nat)
    (s s' : MultipleOrbitals.State) :
  MultipleOrbitals.frame Num1 Num4 evs time gen fuel s = Some s' ->
  MultipleOrbitals.window_open s'
    = MultipleOrbitals.window_open (MultipleOrbitals.poll_events Num1 Num4 evs s)
  /\ MultipleOrbitals.angle s' = MultipleOrbitals.angle s + ROTATION_SPEED.
Proof.
  intros Hrun. rewrite frame_unfold in Hrun.
  destruct (poll_events_display Num1 Num4 evs s) as [_ Ha].
  apply regenerate_cases in Hrun.
  destruct Hrun as [[_ ->] | (_ & o & pts & _ & _ & ->)]; simpl;
    rewrite Ha; split; reflexivity.
Qed.

(** X13.  The frame loop tests the window only at the top of a pass: once
    the window is closed no further pass runs and the state stays as it is;
    a pass that receives a close request still runs to its end (including a
    regeneration that is due) and is the last one. *)
Theorem close_ends_loop_after_pass :
  forall (Num1 Num4 : Z) (p : MultipleOrbitals.Pass)
         (rest : list MultipleOrbitals.Pass) (s : MultipleOrbitals.State),
    (MultipleOrbitals.window_open s = false ->
       MultipleOrbitals.main_loop Num1 Num4 (p :: rest) s = Some s)
    /\ (MultipleOrbitals.window_open s = true ->
        In MultipleOrbitals.Closed (MultipleOrbitals.pass_events p) ->
        MultipleOrbitals.main_loop Num1 Num4 (p :: rest) s
          = MultipleOrbitals.frame Num1 Num4 (MultipleOrbitals.pass_events p)
              (MultipleOrbitals.pass_time p) (MultipleOrbitals.pass_gen p)
              (MultipleOrbitals.pass_fuel p) s
        /\ forall s' : MultipleOrbitals.State,
             MultipleOrbitals.main_loop Num1 Num4 (p :: rest) s = Some s' ->
             MultipleOrbitals.window_open s' = false).
Proof.
  intros Num1 Num4 p rest s. split.
  - intros Hclosed. simpl. rewrite Hclosed. reflexivity.
  - intros Hopen Hin.
    assert (Hlast : forall s1,
              MultipleOrbitals.frame Num1 Num4 (MultipleOrbitals.pass_events p)
                (MultipleOrbitals.pass_time p) (MultipleOrbitals.pass_gen p)
                (MultipleOrbitals.pass_fuel p) s = Some s1 ->
              MultipleOrbitals.window_open s1 = false).
    { intros s1 H1. apply frame_window in H1. destruct H1 as [Hw _].
      rewrite Hw.
      destruct (MultipleOrbitals.window_open
                  (MultipleOrbitals.poll_events Num1 Num4
                     (MultipleOrbitals.pass_events p) s)) eqn:E;
        [|reflexivity].
      apply poll_events_window in E. tauto. }
    assert (Heq : MultipleOrbitals.main_loop Num1 Num4 (p :: rest) s
                  = MultipleOrbitals.frame Num1 Num4
                      (MultipleOrbitals.pass_events p)
                      (MultipleOrbitals.pass_time p)
                      (MultipleOrbitals.pass_gen p)
                      (MultipleOrbitals.pass_fuel p) s).
    { simpl. rewrite Hopen.
      destruct (MultipleOrbitals.frame Num1 Num4 _ _ _ _ s) as [s1|] eqn:E;
        [|reflexivity].
      pose proof (Hlast s1 eq_refl) as Hc.
      destruct rest as [|p' rest']; simpl; [reflexivity|].
      rewrite Hc. reflexivity. }
    split; [exact Heq|]. intros s' Hrun. rewrite Heq in Hrun.
    apply Hlast. exact Hrun.
Qed.

Lemma close_ends_loop_after_pass_witness :
  MultipleOrbitals.main_loop 27 30
    [MultipleOrbitals.mkPass [] 0 (fun _ => mkDraw 0 0 0 0) 0]
    (MultipleOrbitals.mkState false 1 [] 0 0)
  = Some (MultipleOrbitals.mkState false 1 [] 0 0)
  /\ MultipleOrbitals.main_loop 27 30
       [MultipleOrbitals.mkPass [MultipleOrbitals.Closed] 0.25
          (fun _ => mkDraw 0 0 0 0) 0;
        MultipleOrbitals.mkPass [] 0.5 (fun _ => mkDraw 0 0 0 0) 0]
       (MultipleOrbitals.mkState true 1 [] 0 0)
     = MultipleOrbitals.frame 27 30 [MultipleOrbitals.Closed] 0.25
         (fun _ => mkDraw 0 0 0 0) 0 (MultipleOrbitals.mkState true 1 [] 0 0).
Proof.
  split.
  - apply (proj1 (close_ends_loop_after_pass 27 30
                    (MultipleOrbitals.mkPass [] 0 (fun _ => mkDraw 0 0 0 0) 0)
                    [] (MultipleOrbitals.mkState false 1 [] 0 0))).
    reflexivity.
  - apply (proj2 (close_ends_loop_after_pass 27 30
                    (MultipleOrbitals.mkPass [MultipleOrbitals.Closed] 0.25
                       (fun _ => mkDraw 0 0 0 0) 0)
                    [MultipleOrbitals.mkPass [] 0.5 (fun _ => mkDraw 0 0 0 0) 0]
                    (MultipleOrbitals.mkState true 1 [] 0 0))).
    + reflexivity.
    + left. reflexivity.
Defined.




(** ** What is on display *)

Lemma generate_full_set (o : Orbital) (t : R) (gen : nat -> Draw)
    (fuel : nat) (pts : list Vector3f) :
  MultipleOrbitals.generate_orbital_points o t gen fuel = Some pts
  \/ SingleOrbital.generate_orbital_points o t gen fuel = Some pts ->
  full_set pts.
Proof.
  pose proof NUM_POINTS_pos as Hpos.
  intros [H | H]; revert H; apply acceptance_loop_length; simpl; lia.
Qed.

Lemma frame_full_set (Num1 Num4 : Z) (evs : list MultipleOrbitals.Event)
    (time : R) (gen : nat -> Draw) (fuel : nat)
    (s s' : MultipleOrbitals.State) :
  0 <= time ->
  full_set (MultipleOrbitals.points s)
  \/ MultipleOrbitals.last_generation_time s = -100.0 ->
  MultipleOrbitals.frame Num1 Num4 evs time gen fuel s = Some s' ->
  full_set (MultipleOrbitals.points s').
Proof.
  intros Htime Hs Hrun. rewrite frame_unfold in Hrun.
  destruct (poll_events_display Num1 Num4 evs s) as [Hp _].
  pose proof (poll_events_timestamp Num1 Num4 evs s) as Hl.
  apply regenerate_cases in Hrun.
  destruct Hrun as [[Hle ->] | (_ & o & pts & _ & Hgen & ->)]; simpl in *.
  - rewrite Hp. destruct Hs as [Hfull | Hsent]; [exact Hfull|].
    exfalso. destruct Hl as [Hl | Hl]; rewrite Hl in Hle;
      try rewrite Hsent in Hle; unlit; lra.
  - apply (generate_full_set o time gen fuel). left. exact Hgen.
Qed.

Lemma single_frame_full_set (evs : list SingleOrbital.Event)
    (time : R) (gen : nat -> Draw) (fuel : nat) (s s' : SingleOrbital.State) :
  0 <= time ->
  full_set (SingleOrbital.points s)
  \/ SingleOrbital.last_generation_time s = -100.0 ->
  SingleOrbital.frame evs time gen fuel s = Some s' ->
  full_set (SingleOrbital.points s').
Proof.
  intros Htime Hs Hrun. unfold SingleOrbital.frame in Hrun. cbv zeta in Hrun.
  destruct (single_poll_events_display evs s) as (Hp & _ & Hl).
  apply single_regenerate_cases in Hrun.
  destruct Hrun as [[Hle ->] | (_ & pts & Hgen & ->)]; simpl in *.
  - rewrite Hp. destruct Hs as [Hfull | Hsent]; [exact Hfull|].
    exfalso. rewrite Hl, Hsent in Hle. unlit. lra.
  - apply (generate_full_set SingleOrbital.orbital time gen fuel).
    right. exact Hgen.
Qed.

Lemma single_main_loop_invariant (I : SingleOrbital.State -> Prop)
    (passes : list SingleOrbital.Pass) :
  (forall p s s', In p passes -> I s ->
     SingleOrbital.frame (SingleOrbital.pass_events p)
       (SingleOrbital.pass_time p) (SingleOrbital.pass_gen p)
       (SingleOrbital.pass_fuel p) s = Some s' ->
     I s') ->
  forall s s', I s -> SingleOrbital.main_loop passes s = Some s' -> I s'.
Proof.
  induction passes as [|p passes IH]; intros Hstep s s' Hs Hrun; simpl in Hrun.
  - injection Hrun as <-. exact Hs.
  - destruct (SingleOrbital.window_open s); [|injection Hrun as <-; exact Hs].
    destruct (SingleOrbital.frame _ _ _ _ s) as [s1|] eqn:E; [|discriminate].
    apply (IH (fun p0 s0 s0' Hin => Hstep p0 s0 s0' (or_intror Hin)) s1 s');
      [|exact Hrun].
    apply (Hstep p s s1); [left; reflexivity | exact Hs | exact E].
Qed.

(** X15.  With a clock that never reads below 0, the frame loop started
    from the initial state never displays a partial set: after one or more
    passes the point vector holds exactly [NUM_POINTS] points, in both
    programs (the sentinel timestamp makes the first pass regenerate, and
    every regeneration replaces the vector by a full one). *)
Theorem displayed_set_is_full :
  forall (Num1 Num4 : Z),
    (forall (passes : list MultipleOrbitals.Pass) (s' : MultipleOrbitals.State),
        passes <> [] ->
        (forall p, In p passes -> 0 <= MultipleOrbitals.pass_time p) ->
        MultipleOrbitals.main_loop Num1 Num4 passes
          MultipleOrbitals.initial_state = Some s' ->
        Z.of_nat (List.length (MultipleOrbitals.points s')) = NUM_POINTS)
    /\ (forall (passes : list SingleOrbital.Pass) (s' : SingleOrbital.State),
        passes <> [] ->
        (forall p, In p passes -> 0 <= SingleOrbital.pass_time p) ->
        SingleOrbital.main_loop passes SingleOrbital.initial_state = Some s' ->
        Z.of_nat (List.length (SingleOrbital.points s')) = NUM_POINTS).
Proof.
  intros Num1 Num4. split.
  - intros [|p passes] s' Hne Htime Hrun; [contradiction|].
    simpl in Hrun.
    destruct (MultipleOrbitals.frame Num1 Num4 _ _ _ _ _) as [s1|] eqn:E;
      [|discriminate].
    apply frame_full_set in E;
      [| apply Htime; left; reflexivity | right; reflexivity].
    revert E Hrun.
    apply (main_loop_invariant Num1 Num4
             (fun s => full_set (MultipleOrbitals.points s))).
    intros p0 s0 s0' Hin H0.
    apply frame_full_set; [apply Htime; right; exact Hin | left; exact H0].
  - intros [|p passes] s' Hne Htime Hrun; [contradiction|].
    simpl in Hrun.
    destruct (SingleOrbital.frame _ _ _ _ _) as [s1|] eqn:E; [|discriminate].
    apply single_frame_full_set in E;
      [| apply Htime; left; reflexivity | right; reflexivity].
    revert E Hrun.
    apply (single_main_loop_invariant
             (fun s => full_set (SingleOrbital.points s))).
    intros p0 s0 s0' Hin H0.
    apply single_frame_full_set;
      [apply Htime; right; exact Hin | left; exact H0].
Qed.

Lemma first_pass_run_example :
  MultipleOrbitals.main_loop 27 30
    [MultipleOrbitals.mkPass [] 0 (fun _ => mkDraw 0 0 0 0)
       (Z.to_nat NUM_POINTS)]
    MultipleOrbitals.initial_state
  = Some (MultipleOrbitals.mkState true 0
            (repeat (to_cartesian 0 0 0) (Z.to_nat NUM_POINTS))
            (0.0 + ROTATION_SPEED) 0).
Proof.
  cbn [MultipleOrbitals.main_loop MultipleOrbitals.pass_events
       MultipleOrbitals.pass_time MultipleOrbitals.pass_gen
       MultipleOrbitals.pass_fuel].
  change (MultipleOrbitals.window_open MultipleOrbitals.initial_state)
    with true. cbv iota.
  rewrite first_pass_example. reflexivity.
Qed.

Lemma displayed_set_is_full_witness :
  Z.of_nat (List.length (repeat (to_cartesian 0 0 0) (Z.to_nat NUM_POINTS)))
  = NUM_POINTS.
Proof.
  apply (proj1 (displayed_set_is_full 27 30)
           [MultipleOrbitals.mkPass [] 0 (fun _ => mkDraw 0 0 0 0)
              (Z.to_nat NUM_POINTS)]
           (MultipleOrbitals.mkState true 0
              (repeat (to_cartesian 0 0 0) (Z.to_nat NUM_POINTS))
              (0.0 + ROTATION_SPEED) 0)).
  - discriminate.
  - intros p [<- | []]. cbn [MultipleOrbitals.pass_time]. lra.
  - exact first_pass_run_example.
Defined.

Lemma render_points_vertices (i : Z) (o : Orbital) :
  MultipleOrbitals.orbital_at i = Some o ->
  forall pts : list Vector3f,
    exists cmds : list GLCommand,
      MultipleOrbitals.render_points i pts = Some cmds
      /\ vertices cmds
         = map (fun p => mkVector3f (x p * scale o) (y p * scale o)
                           (z p * scale o)) pts.
Proof.
  intros Ho. induction pts as [|p pts (cmds & Hc & Hv)]; simpl.
  - exists []. split; reflexivity.
  - rewrite Ho, Hc. eexists. split; [reflexivity|].
    simpl. rewrite Hv. reflexivity.
Qed.





(** X16.  In every state the frame loop reaches from the initial state the
    catalogue lookup inside the drawing loop succeeds, and the loop emits,
    for each stored point in order, the current orbital's colour with
    alpha 0.5 followed by the point multiplied by that orbital's display
    scale; so exactly one vertex is drawn per stored point.  This needs
    only [Num4 - Num1 < 2^64]. *)
Theorem drawing_loop_draws_every_point :
  forall (Num1 Num4 : Z) (passes : list MultipleOrbitals.Pass)
         (s' : MultipleOrbitals.State),
    (Num4 - Num1 < 2 ^ 64)%Z ->
    MultipleOrbitals.main_loop Num1 Num4 passes MultipleOrbitals.initial_state
      = Some s' ->
    exists o : Orbital,
      MultipleOrbitals.orbital_at (MultipleOrbitals.current_orbital s') = Some o
      /\ In o MultipleOrbitals.orbitals
      /\ MultipleOrbitals.render s'
         = Some (flat_map
                   (fun p =>
                      [ glColor4f (x (color o)) (y (color o)) (z (color o)) 0.5;
                        glVertex3f (x p * scale o) (y p * scale o)
                          (z p * scale o) ])
                   (MultipleOrbitals.points s'))
      /\ (forall cmds, MultipleOrbitals.render s' = Some cmds ->
            List.length (vertices cmds)
            = List.length (MultipleOrbitals.points s')).
Proof.
  intros Num1 Num4 passes s' HNum Hrun.
  assert (Hcat : in_catalogue s').
  { revert Hrun.
    apply (main_loop_invariant Num1 Num4 in_catalogue).
    - intros p s0 s0' _ H0 Hpass. rewrite frame_unfold in Hpass.
      pose proof (poll_events_in_catalogue Num1 Num4
                    (MultipleOrbitals.pass_events p) s0 HNum H0) as H1.
      apply regenerate_cases in Hpass.
      destruct Hpass as [[_ ->] | (_ & o & pts & _ & _ & ->)]; exact H1.
    - unfold in_catalogue. simpl. lia. }
  destruct (orbital_at_valid _ Hcat) as (o & Ho & Hin).
  exists o. split; [exact Ho | split; [exact Hin|]].
  assert (Hr : MultipleOrbitals.render s'
               = Some (flat_map
                   (fun p =>
                      [ glColor4f (x (color o)) (y (color o)) (z (color o)) 0.5;
                        glVertex3f (x p * scale o) (y p * scale o)
                          (z p * scale o) ])
                   (MultipleOrbitals.points s'))).
  { unfold MultipleOrbitals.render.
    induction (MultipleOrbitals.points s') as [|p pts IH]; simpl;
      [reflexivity|].
    rewrite Ho, IH. reflexivity. }
  split; [exact Hr|].
  intros cmds Hc.
  destruct (render_points_vertices _ o Ho (MultipleOrbitals.points s'))
    as (cmds' & Hc' & Hv).
  unfold MultipleOrbitals.render in Hc. rewrite Hc' in Hc.
  injection Hc as <-. rewrite Hv, length_map. reflexivity.
Qed.

Lemma drawing_loop_draws_every_point_witness :
  exists o : Orbital,
    MultipleOrbitals.orbital_at 0 = Some o
    /\ In o MultipleOrbitals.orbitals.
Proof.
  destruct (drawing_loop_draws_every_point 27 30
              [MultipleOrbitals.mkPass [] 0 (fun _ => mkDraw 0 0 0 0)
                 (Z.to_nat NUM_POINTS)]
              (MultipleOrbitals.mkState true 0
                 (repeat (to_cartesian 0 0 0) (Z.to_nat NUM_POINTS))
                 (0.0 + ROTATION_SPEED) 0))
    as (o & Ho & Hin & _).
  - reflexivity.
  - exact first_pass_run_example.
  - exists o. split; [exact Ho | exact Hin].
Defined.
